(** * json_format: the ingestion and merge logic of the data inspector

    A shallow embedding of the front end's data pipeline ([App.tsx]):
    [flattenObject], the record search and normalisation of
    [processIngestedData], [handlePasteIngest] and the merge step of
    [handleTransform], followed by the properties the specification states
    about them.

    Modelling conventions.
    - A parsed JSON value is a [json] tree.  Numbers are kept as integers:
      the code copies them and tests them for truthiness (zero or not), and
      never computes with a number read from the input.
    - A string is a sequence of UTF-16 code units; the model holds the code
      units below 256 (Rocq's [ascii]).
    - A JavaScript object used as a record is the list of its own enumerable
      properties in enumeration order ([props]); inherited properties of
      [Object.prototype] are outside the model.
    - An exception ([TypeError]) is the result [None]. *)

From Stdlib Require Import ZArith String Ascii Lia.
From stdpp Require Import base list strings pretty sorting.

Local Open Scope string_scope.
Local Open Scope Z_scope.
Local Open Scope list_scope.

(** ** Values *)

Local Unset Elimination Schemes.
Inductive json : Type :=
  | JNull
  | JBool (b : bool)
  | JNum (n : Z)
  | JStr (s : string)
  | JArr (items : list json)
  | JObj (fields : list (string * json)).
Local Set Elimination Schemes.

(** The induction principle that reaches the values nested in arrays and
    objects. *)
Fixpoint json_nested_ind (P : json -> Prop)
    (Hnull : P JNull) (Hbool : forall b, P (JBool b))
    (Hnum : forall n, P (JNum n)) (Hstr : forall s, P (JStr s))
    (Harr : forall l, Forall P l -> P (JArr l))
    (Hobj : forall o, Forall (fun kv => P (snd kv)) o -> P (JObj o))
    (v : json) {struct v} : P v :=
  match v with
  | JNull => Hnull
  | JBool b => Hbool b
  | JNum n => Hnum n
  | JStr s => Hstr s
  | JArr l =>
      Harr l ((fix all (l : list json) : Forall P l :=
                 match l with
                 | [] => @List.Forall_nil _ P
                 | x :: r =>
                     @List.Forall_cons _ P x r
                       (json_nested_ind P Hnull Hbool Hnum Hstr Harr Hobj x)
                       (all r)
                 end) l)
  | JObj o =>
      Hobj o ((fix all (o : list (string * json))
                 : Forall (fun kv => P (snd kv)) o :=
                 match o with
                 | [] => @List.Forall_nil _ _
                 | kv :: r =>
                     @List.Forall_cons _ (fun kv => P (snd kv)) kv r
                       (json_nested_ind P Hnull Hbool Hnum Hstr Harr Hobj
                          (snd kv))
                       (all r)
                 end) o)
  end.

(** [typeof v === 'object'] *)
Definition typeof_object (v : json) : bool :=
  match v with
  | JNull | JArr _ | JObj _ => true
  | _ => false
  end.

Definition is_null (v : json) : bool :=
  match v with JNull => true | _ => false end.

(** [Array.isArray(v)] *)
Definition isArray (v : json) : bool :=
  match v with JArr _ => true | _ => false end.

(** The test of [flattenObject]:
    [typeof v === 'object' && v !== null && !Array.isArray(v)]. *)
Definition is_plain_object (v : json) : bool :=
  typeof_object v && negb (is_null v) && negb (isArray v).

(** Truthiness of a value; [None] is [undefined]. *)
Definition truthy (v : option json) : bool :=
  match v with
  | None => false
  | Some JNull => false
  | Some (JBool b) => b
  | Some (JNum n) => negb (n =? 0)
  | Some (JStr s) => negb (String.eqb s "")
  | Some (JArr _) | Some (JObj _) => true
  end.

(** [a || b] *)
Definition js_or (a b : option json) : option json :=
  if truthy a then a else b.

(** ** Objects as ordered property lists *)

Module Props.

(** Own enumerable properties, in the order [Object.keys] lists them. *)
Definition props (A : Type) : Type := list (string * A).

Definition keys {A} (o : props A) : list string := map fst o.
Definition values {A} (o : props A) : list A := map snd o.

(** [o[k]] on own properties. *)
Fixpoint get {A} (o : props A) (k : string) : option A :=
  match o with
  | [] => None
  | (k', v) :: r => if String.eqb k k' then Some v else get r k
  end.

Definition has {A} (o : props A) (k : string) : bool :=
  match get o k with Some _ => true | None => false end.

(** Overwriting an existing property keeps its place. *)
Fixpoint update {A} (o : props A) (k : string) (v : A) : props A :=
  match o with
  | [] => []
  | (k', v') :: r =>
      if String.eqb k k' then (k', v) :: r else (k', v') :: update r k v
  end.

Definition digit_val (c : ascii) : option N :=
  let n := N_of_ascii c in
  if ((48 <=? n) && (n <=? 57))%N then Some (n - 48)%N else None.

Fixpoint parse_digits (s : string) (acc : N) : option N :=
  match s with
  | EmptyString => Some acc
  | String c r =>
      match digit_val c with
      | Some d => parse_digits r (10 * acc + d)%N
      | None => None
      end
  end.

(** An array index is the canonical decimal form of an integer below
    2^32 - 1; such keys are enumerated first, in ascending order. *)
Definition array_index (s : string) : option N :=
  match s with
  | EmptyString => None
  | _ =>
      match parse_digits s 0 with
      | Some n =>
          if String.eqb (pretty n) s && (n <? 4294967295)%N
          then Some n else None
      | None => None
      end
  end.

(** Whether a new key [k] is enumerated before the existing key [k']. *)
Definition comes_before (k k' : string) : bool :=
  match array_index k, array_index k' with
  | Some n, Some m => (n <? m)%N
  | Some _, None => true
  | None, _ => false
  end.

(** Creating a property: an array index goes to its place among the
    indices, any other key to the end. *)
Fixpoint insert_new {A} (o : props A) (k : string) (v : A) : props A :=
  match o with
  | [] => [(k, v)]
  | (k', v') :: r =>
      if comes_before k k' then (k, v) :: o
      else (k', v') :: insert_new r k v
  end.

(** [o[k] = v] *)
Definition set {A} (o : props A) (k : string) (v : A) : props A :=
  if has o k then update o k v else insert_new o k v.

(** [Object.assign(target, source)]; also the spread [{...source}] into
    a fresh object when [target] is empty. *)
Definition assign {A} (target source : props A) : props A :=
  fold_left (fun acc kv => set acc (fst kv) (snd kv)) source target.

(** The order every object's keys are in. *)
Definition key_before (k k' : string) : Prop :=
  match array_index k, array_index k' with
  | Some n, Some m => (n < m)%N
  | Some _, None => True
  | None, Some _ => False
  | None, None => True
  end.

(** The invariant of an object: no key twice, keys in enumeration
    order. *)
Definition wf {A} (o : props A) : Prop :=
  NoDup (keys o) /\ StronglySorted key_before (keys o).

End Props.
Import Props.

(** ** The flattener *)

(** [pre + k] with [pre = prefix.length ? prefix + '.' : ''] *)
Definition dotted (prefix k : string) : string :=
  let pre := if (String.length prefix =? 0)%nat then "" else prefix +:+ "." in
  pre +:+ k.

(** One step of the [reduce] callback, given the result [sub] of the
    recursive call for a plain-object value. *)
Definition flatten_step (prefix : string) (acc : props json) (k : string)
    (v : json) (sub : option (props json)) : option (props json) :=
  if is_plain_object v
  then match sub with
       | Some f => Some (assign acc f)
       | None => None
       end
  else Some (set acc (dotted prefix k) v).

(** The [reduce] callback on the accumulator [st] ([None] once an exception
    was thrown); [recur] is the recursive call. *)
Definition reduce_step (recur : json -> string -> option (props json))
    (prefix : string) (st : option (props json)) (k : string) (v : json)
    : option (props json) :=
  match st with
  | Some acc =>
      flatten_step prefix acc k v
        (if is_plain_object v then recur v (dotted prefix k) else None)
  | None => None
  end.

(** The characters of a string, as the values [s[0]], [s[1]], ... *)
Definition string_chars (s : string) : list json :=
  map (fun c => JStr (String c EmptyString)) (list_ascii_of_string s).

(** [reduce] over the indices [i], [i+1], ... of an array or a string. *)
Definition reduce_indexed (recur : json -> string -> option (props json))
    (prefix : string) (l : list json) (i : nat) (st : option (props json))
    : option (props json) :=
  snd (fold_left
         (fun (ist : nat * option (props json)) (x : json) =>
            (S (fst ist), reduce_step recur prefix (snd ist)
                            (pretty (fst ist)) x))
         l (i, st)).

(** [flattenObject(obj, prefix)].  [Object.keys] throws on [null], lists
    the indices of an array or a string, and nothing for a number or a
    boolean.  The characters of a string are never recursed into. *)
Fixpoint flattenObject (obj : json) (prefix : string) {struct obj}
    : option (props json) :=
  match obj with
  | JNull => None
  | JBool _ | JNum _ => Some []
  | JStr s =>
      reduce_indexed (fun _ _ => None) prefix (string_chars s) 0 (Some [])
  | JArr l => reduce_indexed flattenObject prefix l 0 (Some [])
  | JObj o =>
      fold_left
        (fun st kv => reduce_step flattenObject prefix st (fst kv) (snd kv))
        o (Some [])
  end.

(** The (dotted path, value) pairs [flattenObject] writes for an object, in
    the order it writes them: a plain-object value contributes the pairs of
    its own properties under the extended path, any other value one pair. *)
Fixpoint leaves (obj : json) (prefix : string) {struct obj}
    : list (string * json) :=
  match obj with
  | JObj o =>
      flat_map
        (fun kv : string * json =>
           if is_plain_object (snd kv)
           then leaves (snd kv) (dotted prefix (fst kv))
           else [(dotted prefix (fst kv), snd kv)])
        o
  | _ => []
  end.

(** The value written last under key [k] in a sequence of writes. *)
Definition last_write {A} (writes : list (string * A)) (k : string)
    : option A :=
  get (rev writes) k.

(** A record with no nested plain object. *)
Definition is_flat (r : props json) : Prop :=
  Forall (fun kv => is_plain_object (snd kv) = false) r.

(** What one call establishes: it returns, and what it returns is a
    well-formed flat record. *)
Definition returns_flat (v : json) : Prop :=
  forall prefix, v <> JNull ->
    exists f, flattenObject v prefix = Some f /\ wf f /\ is_flat f.

(** The result of flattening a plain object reads as its sequence of
    writes, the last write of a key winning. *)
Definition reads_as_writes (v : json) : Prop :=
  forall prefix f, is_plain_object v = true ->
    flattenObject v prefix = Some f ->
    forall k, get f k = last_write (leaves v prefix) k.


(** ** The session state *)

Inductive ViewMode : Type := ViewList | ViewIngest.

(** The [useState] cells the handlers read and write.  [filteredData] is
    recomputed from [data] by an effect and is not kept here. *)
Record AppState : Type := mkAppState {
  data : list (props json);
  allKeys : list string;
  keyDensity : props Z;
  selectedIds : list (option json);
  loading : bool;
  error : option string;
  rawInput : string;
  viewMode : ViewMode
}.

Definition setData (st : AppState) (d : list (props json)) : AppState :=
  mkAppState d (allKeys st) (keyDensity st) (selectedIds st) (loading st)
    (error st) (rawInput st) (viewMode st).

Definition setError (st : AppState) (e : option string) : AppState :=
  mkAppState (data st) (allKeys st) (keyDensity st) (selectedIds st)
    (loading st) e (rawInput st) (viewMode st).

Definition setRawInput (st : AppState) (s : string) : AppState :=
  mkAppState (data st) (allKeys st) (keyDensity st) (selectedIds st)
    (loading st) (error st) s (viewMode st).

Definition setLoading (st : AppState) (b : bool) : AppState :=
  mkAppState (data st) (allKeys st) (keyDensity st) (selectedIds st) b
    (error st) (rawInput st) (viewMode st).

(** ** Finding the record array *)

Definition candidates : list string :=
  ["task_results"; "data"; "items"; "results"; "records"].

(** The loop [for (const key of candidates)] with its [break]; [d] is the
    value [dataToSet] has when no candidate holds an array. *)
Fixpoint scan_candidates (o : props json) (cs : list string)
    (d : list json) : list json :=
  match cs with
  | [] => d
  | key :: rest =>
      match get o key with
      | Some (JArr l) => l
      | _ => scan_candidates o rest d
      end
  end.

(** The value of [dataToSet] when [processIngestedData] reaches its test
    [dataToSet.length > 0]. *)
Definition dataToSet (input : json) : list json :=
  match input with
  | JArr l => l
  | JObj o =>
      let d := scan_candidates o candidates [] in
      if (length d =? 0)%nat && (0 <? length (keys o))%nat
      then
        if (length d =? 0)%nat
        then match find isArray (values o) with
             | Some (JArr l) => l
             | _ => d
             end
        else d
      else d
  | _ => []
  end.

(** ** Normalising the records *)

(** [item.id]; an array, a string, a number or a boolean has no such
    property. *)
Definition item_id (item : json) : option json :=
  match item with
  | JObj o => get o "id"
  | _ => None
  end.

(** [a || b] where [b] is a defined value. *)
Definition js_or_else (a : option json) (b : json) : json :=
  match a with
  | Some v => if truthy a then v else b
  | None => b
  end.

(** [`gen-${idx}-${now}`] *)
Definition gen_id (idx : nat) (now : Z) : string :=
  "gen-" +:+ pretty idx +:+ "-" +:+ pretty now.

(** [x || 0] on a count. *)
Definition num_or_0 (x : option Z) : Z :=
  match x with
  | Some n => if n =? 0 then 0 else n
  | None => 0
  end.

(** [density[k] = (density[k] || 0) + 1] *)
Definition count_key (density : props Z) (k : string) : props Z :=
  set density k (num_or_0 (get density k) + 1).

(** The two nested [forEach] loops. *)
Definition density_of (processed : list (props json)) : props Z :=
  fold_left (fun density item => fold_left count_key (keys item) density)
    processed [].

(** A [Set] of strings, in insertion order. *)
Definition Set_add (s : list string) (x : string) : list string :=
  if existsb (String.eqb x) s then s else s ++ [x].

(** [Array.from(new Set(processed.flatMap(Object.keys)))] *)
Definition observed_keys (processed : list (props json)) : list string :=
  fold_left Set_add (flat_map keys processed) [].

Definition priority : list string :=
  ["id"; "status"; "input_text"; "input.text"; "text"; "generated_sql";
   "model_output.cleaned_sql"].

Fixpoint indexOf_from (l : list string) (x : string) (i : Z) : Z :=
  match l with
  | [] => -1
  | y :: r => if String.eqb y x then i else indexOf_from r x (i + 1)
  end.

(** [l.indexOf(x)] *)
Definition indexOf (l : list string) (x : string) : Z := indexOf_from l x 0.

(** [Array.prototype.sort] is stable: the insertion keeps an element before
    the later elements it ties with. *)
Fixpoint sort_insert (cmp : string -> string -> Z) (x : string)
    (l : list string) : list string :=
  match l with
  | [] => [x]
  | y :: r => if cmp x y <=? 0 then x :: l else y :: sort_insert cmp x r
  end.

Definition sort (cmp : string -> string -> Z) (l : list string)
    : list string :=
  fold_right (sort_insert cmp) [] l.

(** ** Merging a transformation *)

(** The key equality of [Map] and [Set] (SameValueZero).  Strings, numbers,
    booleans, [null] and [undefined] compare by value; an array or an
    object compares by reference, and two records never share one. *)
Definition sameValueZero (a b : option json) : bool :=
  match a, b with
  | None, None => true
  | Some JNull, Some JNull => true
  | Some (JBool x), Some (JBool y) => Bool.eqb x y
  | Some (JNum x), Some (JNum y) => x =? y
  | Some (JStr x), Some (JStr y) => String.eqb x y
  | _, _ => false
  end.

(** [record.id] *)
Definition record_id (d : props json) : option json := get d "id".

Module JsMap.

(** A [Map] from ids to records, in insertion order. *)
Definition t : Type := list (option json * props json).

Fixpoint get (m : t) (k : option json) : option (props json) :=
  match m with
  | [] => None
  | (k', v) :: r => if sameValueZero k' k then Some v else get r k
  end.

Fixpoint set (m : t) (k : option json) (v : props json) : t :=
  match m with
  | [] => [(k, v)]
  | (k', v') :: r =>
      if sameValueZero k' k then (k', v) :: r else (k', v') :: set r k v
  end.

(** [new Map(entries)] *)
Definition from (entries : list (option json * props json)) : t :=
  fold_left (fun m e => set m (fst e) (snd e)) entries [].

End JsMap.

(** [selectedIds.has(id)] *)
Definition Set_has (s : list (option json)) (id : option json) : bool :=
  existsb (sameValueZero id) s.

(** [new Map(response.data.data.map(d => [d.id, d]))] *)
Definition transformedMap (out : list (props json)) : JsMap.t :=
  JsMap.from (map (fun d => (record_id d, d)) out).

(** The updater [prev => prev.map(d => transformedMap.get(d.id) || d)]; a
    record is an object, hence truthy. *)
Definition mergeTransformed (out prev : list (props json))
    : list (props json) :=
  map (fun d => match JsMap.get (transformedMap out) (record_id d) with
                | Some r => r
                | None => d
                end)
    prev.

(** What [axios.post('/api/transform', ...)] comes back with: a rejected
    request, a body without an array under [data], or that array. *)
Inductive Response : Type :=
  | RequestFailed
  | NoDataArray
  | DataArray (out : list (props json)).

Definition msg_no_array : string :=
  "Could not find a valid array of data in the JSON.".
Definition msg_invalid_text : string := "Invalid JSON text.".
Definition msg_invalid_file : string := "Invalid JSON file.".
Definition msg_transform_failed : string := "Transformation failed.".

(** The batch sent to the service: the selected records, or all of them
    when nothing is selected. *)
Definition itemsToTransform (st : AppState) : list (props json) :=
  if (0 <? length (selectedIds st))%nat
  then List.filter (fun d => Set_has (selectedIds st) (record_id d)) (data st)
  else data st.

(** ** The handlers *)

Section App.

(** The clock: [Date_now idx] is what [Date.now()] reads while item [idx]
    is mapped. *)
Variable Date_now : nat -> Z.
(** [a.localeCompare(b)], the host's collation. *)
Variable localeCompare : string -> string -> Z.
(** [JSON.parse], [None] when it throws. *)
Variable JSON_parse : string -> option json.
(** The transformation service behind [axios.post]. *)
Variable post_transform : list (props json) -> string -> Response.

(** The callback of [dataToSet.map]: [{...flat, id: item.id || flat.id ||
    `gen-${idx}-${Date.now()}`}]. *)
Definition normalize (idx : nat) (item : json) : option (props json) :=
  match flattenObject item "" with
  | Some flat =>
      Some (set (assign [] flat) "id"
              (js_or_else (js_or (item_id item) (get flat "id"))
                 (JStr (gen_id idx (Date_now idx)))))
  | None => None
  end.

(** [dataToSet.map((item, idx) => ...)], from index [idx] on. *)
Fixpoint map_items (items : list json) (idx : nat)
    : option (list (props json)) :=
  match items with
  | [] => Some []
  | item :: rest =>
      match normalize idx item with
      | Some r =>
          match map_items rest (S idx) with
          | Some rs => Some (r :: rs)
          | None => None
          end
      | None => None
      end
  end.

(** The comparator handed to [keys.sort]. *)
Definition compareKeys (density : props Z) (a b : string) : Z :=
  let pA := indexOf priority a in
  let pB := indexOf priority b in
  if negb (pA =? -1) && negb (pB =? -1) then pA - pB
  else if negb (pA =? -1) then -1
  else if negb (pB =? -1) then 1
  else if negb (num_or_0 (get density b) =? num_or_0 (get density a))
  then num_or_0 (get density b) - num_or_0 (get density a)
  else localeCompare a b.

(** The branch [dataToSet.length > 0] of [processIngestedData]; [None]
    when the mapping throws, which happens before any state is set. *)
Definition ingestRecords (d : list json) (st : AppState)
    : option AppState :=
  match map_items d 0 with
  | Some processed =>
      let density := density_of processed in
      let sorted := sort (compareKeys density) (observed_keys processed) in
      Some (mkAppState processed
              (List.filter
                 (fun k => negb (String.eqb k "id")
                           && negb (String.eqb k "status"))
                 sorted)
              density (selectedIds st) (loading st) None (rawInput st)
              ViewList)
  | None => None
  end.

(** [processIngestedData(json)] *)
Definition processIngestedData (input : json) (st : AppState)
    : option AppState :=
  let d := dataToSet input in
  if (0 <? length d)%nat
  then ingestRecords d st
  else Some (setError st (Some msg_no_array)).

(** [handlePasteIngest()] *)
Definition handlePasteIngest (st : AppState) : AppState :=
  match JSON_parse (rawInput st) with
  | Some input =>
      match processIngestedData input st with
      | Some st' => setRawInput st' ""
      | None => setError st (Some msg_invalid_text)
      end
  | None => setError st (Some msg_invalid_text)
  end.

(** The [reader.onload] callback of [handleFileUpload], on the text of
    the file. *)
Definition handleFileUpload (content : string) (st : AppState) : AppState :=
  match JSON_parse content with
  | Some input =>
      match processIngestedData input st with
      | Some st' => st'
      | None => setError st (Some msg_invalid_file)
      end
  | None => setError st (Some msg_invalid_file)
  end.

(** [handleTransform(type)], run to its end without another handler in
    between: the updater of [setData] then sees the [data] the batch was
    taken from. *)
Definition handleTransform (type : string) (st : AppState) : AppState :=
  if (length (selectedIds st) =? 0)%nat && (length (data st) =? 0)%nat
  then st
  else
    match post_transform (itemsToTransform st) type with
    | DataArray out =>
        let merged := mergeTransformed out (data st) in
        setLoading
          (setData st
             (if (length (selectedIds st) =? 0)%nat then out else merged))
          false
    | NoDataArray => setLoading st false
    | RequestFailed =>
        setLoading (setError st (Some msg_transform_failed)) false
    end.

End App.

(** The state the component starts in. *)
Definition initialState : AppState :=
  mkAppState [] [] [] [] false None "" ViewIngest.

(** ** The specification's vocabulary *)

(** The outcome of the record search: the array handed to the mapping, or
    [None] for [NoArrayFound]. *)
Definition nonempty (found : option (list json)) : option (list json) :=
  match found with
  | Some (x :: l) => Some (x :: l)
  | _ => None
  end.

Definition located (input : json) : option (list json) :=
  nonempty (Some (dataToSet input)).

(** The first candidate name whose value is an array, with that array. *)
Definition first_candidate_array (o : props json) : option (list json) :=
  match find (fun key => match get o key with
                         | Some v => isArray v
                         | None => false
                         end) candidates with
  | Some key => match get o key with
                | Some (JArr l) => Some l
                | _ => None
                end
  | None => None
  end.

(** The first array among the values, in enumeration order. *)
Definition first_array_value (o : props json) : option (list json) :=
  match find isArray (values o) with
  | Some (JArr l) => Some l
  | _ => None
  end.

(** The search as the specification words it: the values are scanned only
    when no candidate holds an array. *)
Definition locate_as_stated (input : json) : option (list json) :=
  nonempty
    match input with
    | JArr l => Some l
    | JObj o =>
        match first_candidate_array o with
        | Some l => Some l
        | None =>
            if (0 <? length (keys o))%nat then first_array_value o else None
        end
    | _ => None
    end.

(** The search with the values scanned also when the candidate found holds
    an empty array. *)
Definition locate_amended (input : json) : option (list json) :=
  nonempty
    match input with
    | JArr l => Some l
    | JObj o =>
        match first_candidate_array o with
        | Some (x :: l) => Some (x :: l)
        | _ =>
            if (0 <? length (keys o))%nat then first_array_value o else None
        end
    | _ => None
    end.

(** The place of a key in a list. *)
Fixpoint position (l : list string) (x : string) : option nat :=
  match l with
  | [] => None
  | y :: r =>
      if String.eqb y x then Some 0%nat
      else match position r x with
           | Some n => Some (S n)
           | None => None
           end
  end.

(** The density of a key: its count, zero when it has none. *)
Definition density_at (density : props Z) (k : string) : Z :=
  default 0 (get density k).

(** The number of records that hold key [k]. *)
Definition records_with (k : string) (records : list (props json)) : nat :=
  length (List.filter (fun r => has r k) records).

(** The order of [KeyOrder]: priority keys first, in the order of the
    priority list; then the other keys by falling density, equal densities
    by the collation. *)
Definition key_order (collate : string -> string -> Z) (density : props Z)
    (a b : string) : Prop :=
  match position priority a, position priority b with
  | Some i, Some j => (i <= j)%nat
  | Some _, None => True
  | None, Some _ => False
  | None, None =>
      density_at density b < density_at density a
      \/ (density_at density a = density_at density b /\ collate a b <= 0)
  end.

(** What ECMAScript asks of [localeCompare]: a consistent comparator. *)
Definition consistent_comparator (collate : string -> string -> Z) : Prop :=
  (forall a b, collate a b <= 0 \/ collate b a <= 0) /\
  (forall a b c, collate a b <= 0 -> collate b c <= 0 -> collate a c <= 0).

(** The record the service returned last for an id. *)
Definition last_with_id (out : list (props json)) (id : option json)
    : option (props json) :=
  find (fun r => sameValueZero (record_id r) id) (rev out).

(** *** Sample environments *)

(** A clock that reads the same millisecond throughout. *)
Definition steady_clock (_ : nat) : Z := 1700000000000.

(** The collation by code units. *)
Fixpoint code_unit_compare (a b : string) : Z :=
  match a, b with
  | EmptyString, EmptyString => 0
  | EmptyString, String _ _ => -1
  | String _ _, EmptyString => 1
  | String x a', String y b' =>
      if (N_of_ascii x <? N_of_ascii y)%N then -1
      else if (N_of_ascii y <? N_of_ascii x)%N then 1
      else code_unit_compare a' b'
  end.

(** [JSON.parse] on the handful of texts the examples use. *)
Definition parse_sample (text : string) : option json :=
  if String.eqb text "[]" then Some (JArr [])
  else if String.eqb text "{}" then Some (JObj [])
  else if String.eqb text "42" then Some (JNum 42)
  else if String.eqb text "[{}]" then Some (JArr [JObj []])
  else None.

(** A service that marks every record it is sent. *)
Definition mark_verified (batch : list (props json)) (_ : string) : Response :=
  DataArray (map (fun r => set r "status" (JStr "verified")) batch).

(** A session that holds one record and has the text [42] pasted. *)
Definition one_record_state : AppState :=
  mkAppState [[("id", JNum 1); ("x", JStr "a")]] ["x"] [("id", 1); ("x", 1)]
    [] false None "42" ViewList.

(** A session with three records, the second of them selected. *)
Definition three_record_state : AppState :=
  mkAppState
    [[("id", JStr "id1")]; [("id", JStr "id2")]; [("id", JStr "id3")]]
    [] [("id", 3)] [Some (JStr "id2")] false None "" ViewList.

(** *** Auxiliary notions of the proofs *)

Fixpoint has_dash (s : string) : bool :=
  match s with
  | EmptyString => false
  | String c r => Ascii.eqb c "-" || has_dash r
  end.

(** Two records for the worked example of the key order, and the session
    their ingestion leaves. *)
Definition sample_input : json :=
  JArr [JObj [("b", JNum 1); ("a", JNum 1); ("text", JStr "t");
              ("status", JStr "ok"); ("c", JObj [("d", JNull)])];
        JObj [("c", JObj [("d", JNum 5)]); ("id", JStr "r2")]].

Definition sample_ingested : AppState :=
  mkAppState
    [[("b", JNum 1); ("a", JNum 1); ("text", JStr "t"); ("status", JStr "ok");
      ("c.d", JNull); ("id", JStr "gen-0-1700000000000")];
     [("c.d", JNum 5); ("id", JStr "r2")]]
    ["text"; "c.d"; "a"; "b"]
    [("b", 1); ("a", 1); ("text", 1); ("status", 1); ("c.d", 2); ("id", 2)]
    [] false None "" ViewList.

(** A record that is already flat. *)
Definition flat_record : props json :=
  [("id", JStr "r1"); ("a.b", JNum 2); ("tags", JArr [JStr "t"])].

(** The working set and its key metadata are the same in two states. *)
Definition same_working_set (st st' : AppState) : Prop :=
  data st' = data st /\ allKeys st' = allKeys st
  /\ keyDensity st' = keyDensity st.


(** ** The rest of the component *)

(** *** Selection

    [selectedIds] is a [Set] of ids.  The operations below follow the
    model of [sameValueZero]: they cover the ids that are not arrays or
    objects, which is what the type of [DataRecord.id] admits. *)

Definition setSelectedIds (st : AppState) (s : list (option json))
    : AppState :=
  mkAppState (data st) (allKeys st) (keyDensity st) s (loading st)
    (error st) (rawInput st) (viewMode st).

(** [set.add(id)] *)
Definition IdSet_add (s : list (option json)) (id : option json)
    : list (option json) :=
  if Set_has s id then s else s ++ [id].

(** [set.delete(id)] *)
Definition IdSet_delete (s : list (option json)) (id : option json)
    : list (option json) :=
  List.filter (fun x => negb (sameValueZero id x)) s.

(** The [onToggleSelect] callback handed to [DataList]. *)
Definition onToggleSelect (id : option json) (st : AppState) : AppState :=
  setSelectedIds st
    (if Set_has (selectedIds st) id
     then IdSet_delete (selectedIds st) id
     else IdSet_add (selectedIds st) id).

(** The [onSelectAll] callback, over the records currently shown. *)
Definition onSelectAll (filteredData : list (props json)) (selectAll : bool)
    (st : AppState) : AppState :=
  setSelectedIds st
    (fold_left
       (fun newIds d =>
          if selectAll then IdSet_add newIds (record_id d)
          else IdSet_delete newIds (record_id d))
       filteredData (selectedIds st)).

(** [allSelected] of [DataList]:
    [data.length > 0 && data.every(d => selectedIds.has(d.id))]. *)
Definition allSelected (shown : list (props json))
    (selected : list (option json)) : bool :=
  (0 <? length shown)%nat
  && forallb (fun d => Set_has selected (record_id d)) shown.

(** An id that is not an array or an object. *)
Definition primitive_id (id : option json) : Prop :=
  sameValueZero id id = true.

(** *** Export *)

(** [itemsToExport] of [handleExport]. *)
Definition itemsToExport (st : AppState) : list (props json) :=
  if (0 <? length (selectedIds st))%nat
  then List.filter (fun d => Set_has (selectedIds st) (record_id d)) (data st)
  else data st.

(** [handleExport()]: the records serialised into the download, [None]
    when the handler returns before building one. *)
Definition handleExport (st : AppState) : option (list (props json)) :=
  let items := itemsToExport st in
  if (length items =? 0)%nat then None else Some items.

(** *** The columns of [DataList] *)

(** The effect on [allKeys]: the default visible columns are set when
    there are keys and no column is visible. *)
Definition defaultColumns (keys_ : list string) (visibleColumns : list string)
    : list string :=
  if (0 <? length keys_)%nat && (length visibleColumns =? 0)%nat
  then
    if (length keys_ <=? 6)%nat
    then fold_left Set_add keys_ []
    else fold_left Set_add (firstn 5 keys_) []
  else visibleColumns.

(** [toggleColumn(key)] *)
Definition toggleColumn (key : string) (visibleColumns : list string)
    : list string :=
  if existsb (String.eqb key) visibleColumns
  then List.filter (fun k => negb (String.eqb key k)) visibleColumns
  else Set_add visibleColumns key.

(** *** The search filter *)

(** Whether [t] starts [s]. *)
Fixpoint starts_with (s t : string) {struct t} : bool :=
  match t, s with
  | EmptyString, _ => true
  | String _ _, EmptyString => false
  | String c t', String d s' => Ascii.eqb c d && starts_with s' t'
  end.

(** [s.includes(t)] *)
Fixpoint includes (s t : string) : bool :=
  starts_with s t
  || match s with
     | EmptyString => false
     | String _ s' => includes s' t
     end.

Section Search.

(** [String(n)] on a number and [s.toLowerCase()], as the host has
    them. *)
Variable Number_toString : Z -> string.
Variable toLowerCase : string -> string.

(** [String(v)]: an array joins the strings of its elements with commas,
    [null] elements giving the empty string. *)
Fixpoint js_String (v : json) : string :=
  match v with
  | JNull => "null"
  | JBool true => "true"
  | JBool false => "false"
  | JNum n => Number_toString n
  | JStr s => s
  | JArr l =>
      (fix join (l : list json) : string :=
         match l with
         | [] => ""
         | x :: r =>
             (match x with JNull => "" | _ => js_String x end)
             +:+ match r with
                 | [] => ""
                 | _ :: _ => "," +:+ join r
                 end
         end) l
  | JObj _ => "[object Object]"
  end.

(** The test of the filter on one record. *)
Definition record_matches (lower : string) (d : props json) : bool :=
  existsb (fun v => includes (toLowerCase (js_String v)) lower) (values d).

(** The effect on [data] and [searchTerm] that sets [filteredData]. *)
Definition filterData (searchTerm : string) (records : list (props json))
    : list (props json) :=
  if (String.length searchTerm =? 0)%nat
  then records
  else List.filter (record_matches (toLowerCase searchTerm)) records.

End Search.

(** *** Reloading from the back end *)

Definition msg_fetch_failed : string := "Failed to fetch data from backend.".

Section Reload.

(** The answer of [axios.get] to a URL. *)
Variable api_get : string -> Response.

(** [fetchData()], with the [limit] and [status] parameters of the page's
    query string; [filterStatus] is always the empty string. *)
Definition fetchData (limit status : option string) (st : AppState)
    : AppState :=
  let limit_ := match limit with
                | Some (String c s) => String c s
                | _ => "100"
                end in
  let status_ := match status with
                 | Some (String c s) => String c s
                 | _ => ""
                 end in
  match api_get ("/api/data?limit=" +:+ limit_ +:+ "&status=" +:+ status_) with
  | DataArray out => setLoading (setData (setError st None) out) false
  | NoDataArray => setLoading (setError st None) false
  | RequestFailed => setLoading (setError st (Some msg_fetch_failed)) false
  end.

End Reload.

(** *** Vocabulary of the further properties *)

(** The ids of a list of records are pairwise distinct primitive ids. *)
Definition distinct_ids (records : list (props json)) : Prop :=
  NoDup (map record_id records)
  /\ Forall (fun d => primitive_id (record_id d)) records.

(** A service that returns its batch as it is. *)
Definition echo_service (batch : list (props json)) (_ : string) : Response :=
  DataArray batch.

(** A session with three records, none selected, and one with a stale
    selection. *)
Definition unselected_state : AppState :=
  mkAppState
    [[("id", JStr "id1")]; [("id", JStr "id2")]; [("id", JStr "id3")]]
    [] [("id", 3)] [] false None "" ViewList.

Definition stale_selection_state : AppState :=
  mkAppState
    [[("id", JStr "id1")]; [("id", JStr "id2")]]
    [] [("id", 2)] [Some (JStr "gone")] false None "" ViewList.

(** Lower case for the letters A to Z, and the decimal form of a number:
    sample hosts for the search. *)
Definition lower_ascii (c : ascii) : ascii :=
  let n := N_of_ascii c in
  if ((65 <=? n) && (n <=? 90))%N then ascii_of_N (n + 32) else c.

Fixpoint lower_letters (s : string) : string :=
  match s with
  | EmptyString => EmptyString
  | String c r => String (lower_ascii c) (lower_letters r)
  end.

Definition decimal (n : Z) : string := pretty n.

(** Two records to search in. *)
Definition search_records : list (props json) :=
  [[("id", JNum 1); ("text", JStr "Select ALL")];
   [("id", JNum 2); ("tags", JArr [JStr "x"; JNull; JStr "sel"])];
   [("id", JNum 3); ("text", JStr "drop")]].
(** ** Facts on property lists *)

Section PropsFacts.
Context {A : Type}.
Implicit Types (o : props A) (k : string) (v : A).

Lemma get_app o1 o2 k :
  get (o1 ++ o2) k
  = match get o1 k with Some v => Some v | None => get o2 k end.
Proof.
  induction o1 as [|[k1 v1] o1 IH]; simpl; [done|].
  destruct (String.eqb k k1); [done|apply IH].
Qed.

Lemma get_None o k : get o k = None <-> k ∉ keys o.
Proof.
  induction o as [|[k1 v1] o IH]; simpl.
  - split; [intros _; apply not_elem_of_nil|done].
  - rewrite not_elem_of_cons, <- IH.
    destruct (String.eqb_spec k k1) as [->|Hne]; split; try done.
    + intros [? _]; done.
    + intros [_ ?]; done.
Qed.

Lemma get_Some_elem o k v : get o k = Some v -> (k, v) ∈ o.
Proof.
  induction o as [|[k1 v1] o IH]; simpl; [done|].
  destruct (String.eqb_spec k k1) as [->|Hne].
  - intros [= ->]. apply list_elem_of_here.
  - intros H. apply list_elem_of_further, IH, H.
Qed.

Lemma get_Some_key o k v : get o k = Some v -> k ∈ keys o.
Proof.
  intros H. apply get_Some_elem in H.
  apply (list_elem_of_fmap_2 fst) in H. exact H.
Qed.

Lemma has_true o k : has o k = true <-> k ∈ keys o.
Proof.
  unfold has. destruct (get o k) eqn:E.
  - split; [intros _; eapply get_Some_key, E|done].
  - apply get_None in E. split; [done|intros H; destruct (E H)].
Qed.

Lemma has_false o k : has o k = false <-> k ∉ keys o.
Proof.
  rewrite <- has_true.
  destruct (has o k); split; try done; intros H; destruct H; done.
Qed.

Lemma NoDup_get o k v : NoDup (keys o) -> (k, v) ∈ o -> get o k = Some v.
Proof.
  induction o as [|[k1 v1] o IH]; simpl; intros Hnd Hin.
  - by apply elem_of_nil in Hin.
  - apply NoDup_cons in Hnd as [Hk1 Hnd].
    apply elem_of_cons in Hin as [[= -> ->]|Hin].
    + by rewrite String.eqb_refl.
    + destruct (String.eqb_spec k k1) as [->|Hne]; [|by apply IH].
      destruct Hk1. apply (list_elem_of_fmap_2 fst) in Hin. exact Hin.
Qed.

Lemma get_rev_NoDup o k : NoDup (keys o) -> get (rev o) k = get o k.
Proof.
  intros Hnd. destruct (get o k) as [v|] eqn:E.
  - apply NoDup_get.
    + unfold keys. rewrite map_rev, <- Permutation_rev. exact Hnd.
    + rewrite list_elem_of_In, <- in_rev, <- list_elem_of_In.
      by apply get_Some_elem.
  - apply get_None. apply get_None in E. unfold keys in *.
    rewrite map_rev, list_elem_of_In, <- in_rev, <- list_elem_of_In.
    exact E.
Qed.

Lemma keys_update o k v : keys (update o k v) = keys o.
Proof.
  induction o as [|[k1 v1] o IH]; simpl; [done|].
  destruct (String.eqb k k1); simpl; [done|by rewrite IH].
Qed.

Lemma get_update o k v k' :
  get (update o k v) k'
  = if String.eqb k' k then (if has o k then Some v else None)
    else get o k'.
Proof.
  unfold has. induction o as [|[k1 v1] o IH]; simpl.
  - by destruct (String.eqb k' k).
  - destruct (String.eqb_spec k k1) as [E|Hne]; simpl.
    + subst. destruct (String.eqb k' k1); done.
    + rewrite IH. destruct (String.eqb_spec k' k1) as [E|Hne']; [|done].
      subst. destruct (String.eqb_spec k1 k) as [E|_]; [by subst|done].
Qed.

Lemma keys_insert_new o k v : keys (insert_new o k v) ≡ₚ k :: keys o.
Proof.
  induction o as [|[k1 v1] o IH]; simpl; [done|].
  destruct (comes_before k k1); simpl; [done|].
  rewrite IH. apply Permutation_swap.
Qed.

Lemma get_insert_new o k v k' :
  k ∉ keys o ->
  get (insert_new o k v) k'
  = if String.eqb k' k then Some v else get o k'.
Proof.
  induction o as [|[k1 v1] o IH]; simpl; intros Hk; [done|].
  apply not_elem_of_cons in Hk as [Hne Hk].
  destruct (comes_before k k1); simpl.
  - destruct (String.eqb k' k); done.
  - rewrite IH by done.
    destruct (String.eqb_spec k' k1) as [->|_]; [|done].
    destruct (String.eqb_spec k1 k) as [->|_]; done.
Qed.

(** Reading after a write. *)
Lemma get_set o k v k' :
  get (set o k v) k' = if String.eqb k' k then Some v else get o k'.
Proof.
  unfold set. destruct (has o k) eqn:E.
  - by rewrite get_update, E.
  - apply get_insert_new. by apply has_false.
Qed.

Lemma elem_of_keys_set o k v k' :
  k' ∈ keys (set o k v) <-> k' = k \/ k' ∈ keys o.
Proof.
  rewrite <- !has_true. unfold has at 1. rewrite get_set.
  destruct (String.eqb_spec k' k) as [->|Hne].
  - split; [by left|done].
  - unfold has. destruct (get o k'); split; try done; [by right|].
    intros [?|?]; done.
Qed.

(** [Object.assign]: the source's last write of a key wins, and the
    target's other keys stay. *)
Lemma get_assign (target source : props A) k :
  get (assign target source) k
  = match last_write source k with
    | Some v => Some v
    | None => get target k
    end.
Proof.
  unfold assign, last_write. revert target.
  induction source as [|[k1 v1] s IH]; intros target; simpl; [done|].
  rewrite IH, get_app, get_set. simpl.
  destruct (get (rev s) k); [done|].
  destruct (String.eqb k k1); done.
Qed.

Lemma elem_of_keys_assign (target source : props A) k :
  k ∈ keys (assign target source) <-> k ∈ keys source \/ k ∈ keys target.
Proof.
  unfold assign. revert target.
  induction source as [|[k1 v1] s IH]; intros target; simpl.
  - rewrite elem_of_nil. tauto.
  - rewrite IH, elem_of_keys_set, elem_of_cons. tauto.
Qed.

End PropsFacts.

(** *** The enumeration order is kept by every write *)

Lemma array_index_inj k k' n :
  array_index k = Some n -> array_index k' = Some n -> k = k'.
Proof.
  unfold array_index. intros H H'.
  destruct k as [|c s]; [done|]. destruct k' as [|c' s']; [done|].
  destruct (parse_digits (String c s) 0) as [m|]; [|done].
  destruct (parse_digits (String c' s') 0) as [m'|]; [|done].
  destruct (String.eqb_spec (pretty m) (String c s)) as [E|]; [|done].
  destruct (String.eqb_spec (pretty m') (String c' s')) as [E'|]; [|done].
  simpl in H, H'.
  destruct (m <? 4294967295)%N; [|done].
  destruct (m' <? 4294967295)%N; [|done].
  congruence.
Qed.

Lemma key_before_trans k1 k2 k3 :
  key_before k1 k2 -> key_before k2 k3 -> key_before k1 k3.
Proof.
  unfold key_before.
  destruct (array_index k1), (array_index k2), (array_index k3);
    try done; lia.
Qed.

Lemma comes_before_true k k' : comes_before k k' = true -> key_before k k'.
Proof.
  unfold comes_before, key_before.
  destruct (array_index k), (array_index k'); try done.
  intros H. by apply N.ltb_lt.
Qed.

Lemma comes_before_false k k' :
  comes_before k k' = false -> k <> k' -> key_before k' k.
Proof.
  unfold comes_before, key_before. intros H Hne.
  destruct (array_index k) as [n|] eqn:E, (array_index k') as [m|] eqn:E';
    try done.
  apply N.ltb_ge in H.
  destruct (decide (n = m)) as [->|Hnm]; [|lia].
  destruct Hne. eapply array_index_inj; eassumption.
Qed.

Lemma key_before_not_comes_before k k' :
  key_before k' k -> comes_before k k' = false.
Proof.
  unfold comes_before, key_before.
  destruct (array_index k), (array_index k'); try done.
  intros H. apply N.ltb_ge. lia.
Qed.

Section Wf.
Context {A : Type}.
Implicit Types (o : props A) (k : string) (v : A).

Lemma wf_nil : wf (@nil (string * A)).
Proof. split; simpl; [apply NoDup_nil_2|constructor]. Qed.

Lemma sorted_insert_new o k v :
  k ∉ keys o ->
  StronglySorted key_before (keys o) ->
  StronglySorted key_before (keys (insert_new o k v)).
Proof.
  induction o as [|[k1 v1] o IH]; simpl; intros Hk Hs.
  - repeat constructor.
  - apply not_elem_of_cons in Hk as [Hne Hk].
    apply StronglySorted_inv in Hs as [Hs Hall].
    destruct (comes_before k k1) eqn:E; simpl.
    + apply comes_before_true in E.
      constructor; [by constructor|].
      constructor; [done|].
      eapply Forall_impl; [exact Hall|].
      intros x Hx. eapply key_before_trans; eassumption.
    + constructor; [by apply IH|].
      rewrite (keys_insert_new o k v).
      constructor; [|done].
      by apply comes_before_false.
Qed.

Lemma wf_set o k v : wf o -> wf (set o k v).
Proof.
  intros [Hnd Hs]. unfold wf, set.
  destruct (has o k) eqn:E.
  - by rewrite keys_update.
  - apply has_false in E. split.
    + rewrite (keys_insert_new o k v). by apply NoDup_cons.
    + by apply sorted_insert_new.
Qed.

Lemma wf_assign (target source : props A) :
  wf target -> wf (assign target source).
Proof.
  unfold assign. revert target.
  induction source as [|[k1 v1] s IH]; intros target Hwf; simpl; [done|].
  by apply IH, wf_set.
Qed.

(** Writing a key that belongs at the end appends it. *)
Lemma set_snoc o k v : wf (o ++ [(k, v)]) -> set o k v = o ++ [(k, v)].
Proof.
  intros [Hnd Hs]. unfold keys in Hnd, Hs. rewrite map_app in Hnd, Hs.
  simpl in Hnd, Hs.
  apply NoDup_app in Hnd as (_ & Hk & _).
  apply StronglySorted_app in Hs as (Hall & _ & _).
  assert (k ∉ keys o) as Hnot.
  { intros Hin. apply (Hk k Hin). apply list_elem_of_here. }
  unfold set. apply has_false in Hnot as ->.
  assert (forall k', k' ∈ keys o -> key_before k' k) as Hb.
  { intros k' Hin. apply (Hall k' k Hin). apply list_elem_of_here. }
  clear Hk Hall. induction o as [|[k1 v1] o IH]; simpl; [done|].
  rewrite key_before_not_comes_before.
  - f_equal. apply IH. intros k' Hin. apply Hb. by apply list_elem_of_further.
  - apply Hb. apply list_elem_of_here.
Qed.

(** Copying a well-formed object property by property rebuilds it. *)
Lemma assign_rebuild (target source : props A) :
  wf (target ++ source) -> assign target source = target ++ source.
Proof.
  unfold assign. revert target.
  induction source as [|[k1 v1] s IH]; intros target Hwf; simpl.
  - by rewrite app_nil_r.
  - replace (target ++ (k1, v1) :: s) with ((target ++ [(k1, v1)]) ++ s)
      in * by (by rewrite <- app_assoc).
    rewrite set_snoc.
    + by apply IH.
    + destruct Hwf as [Hnd Hs]. unfold wf, keys in *.
      rewrite map_app in Hnd, Hs. split.
      * by apply NoDup_app in Hnd as (? & _ & _).
      * by apply StronglySorted_app in Hs as (_ & ? & _).
Qed.

End Wf.

(** ** The flattener: invariants of the result *)

Lemma is_flat_set (o : props json) k v :
  is_flat o -> is_plain_object v = false -> is_flat (set o k v).
Proof.
  unfold is_flat, set. intros Ho Hv. destruct (has o k).
  - induction Ho as [|[k1 v1] o H1 Ho IH]; simpl; [constructor|].
    destruct (String.eqb k k1); constructor; done.
  - induction Ho as [|[k1 v1] o H1 Ho IH]; simpl.
    + by repeat constructor.
    + destruct (comes_before k k1); repeat constructor; done.
Qed.

Lemma is_flat_assign (target source : props json) :
  is_flat target -> is_flat source -> is_flat (assign target source).
Proof.
  unfold assign. intros Ht Hs. revert target Ht.
  induction Hs as [|[k1 v1] s H1 Hs IH]; intros target Ht; simpl; [done|].
  apply IH. by apply is_flat_set.
Qed.


Lemma is_plain_object_not_null v : is_plain_object v = true -> v <> JNull.
Proof. by destruct v. Qed.

Lemma reduce_step_returns recur prefix acc k v :
  (is_plain_object v = true ->
   exists f, recur v (dotted prefix k) = Some f /\ wf f /\ is_flat f) ->
  wf acc -> is_flat acc ->
  exists f, reduce_step recur prefix (Some acc) k v = Some f
            /\ wf f /\ is_flat f.
Proof.
  intros Hrec Hwf Hflat. unfold reduce_step, flatten_step.
  destruct (is_plain_object v) eqn:E.
  - destruct Hrec as (f & -> & Hf1 & Hf2); [done|].
    eexists; split; [done|]. split; [by apply wf_assign|by apply is_flat_assign].
  - eexists; split; [done|]. split; [by apply wf_set|by apply is_flat_set].
Qed.

Lemma reduce_indexed_returns recur prefix l :
  Forall (fun x => is_plain_object x = true ->
            forall p, exists f, recur x p = Some f /\ wf f /\ is_flat f) l ->
  forall i acc, wf acc -> is_flat acc ->
  exists f, reduce_indexed recur prefix l i (Some acc) = Some f
            /\ wf f /\ is_flat f.
Proof.
  unfold reduce_indexed.
  induction 1 as [|x l Hx Hl IH]; intros i acc Hwf Hflat;
    cbn [fold_left fst snd].
  - by exists acc.
  - destruct (reduce_step_returns recur prefix acc (pretty i) x)
      as (f & -> & Hf1 & Hf2); [by auto|done|done|].
    by apply IH.
Qed.

Lemma reduce_fields_returns prefix (o : list (string * json)) :
  Forall (fun kv => returns_flat (snd kv)) o ->
  forall acc, wf acc -> is_flat acc ->
  exists f,
    fold_left
      (fun st kv => reduce_step flattenObject prefix st (fst kv) (snd kv))
      o (Some acc) = Some f
    /\ wf f /\ is_flat f.
Proof.
  induction 1 as [|[k x] o Hx Ho IH]; intros acc Hwf Hflat;
    cbn [fold_left fst snd].
  - by exists acc.
  - destruct (reduce_step_returns flattenObject prefix acc k x)
      as (f & -> & Hf1 & Hf2); [|done|done|by apply IH].
    intros Hp. apply Hx. by apply is_plain_object_not_null.
Qed.

Lemma flattenObject_returns_flat v : returns_flat v.
Proof.
  induction v as [|b|n|s|l IH|o IH] using json_nested_ind;
    intros prefix Hnn; simpl.
  - done.
  - exists []. split; [done|]. split; [apply wf_nil|constructor].
  - exists []. split; [done|]. split; [apply wf_nil|constructor].
  - apply reduce_indexed_returns; [|apply wf_nil|constructor].
    unfold string_chars. apply Forall_forall. intros x Hx Hp.
    apply list_elem_of_fmap in Hx as (c & -> & _). done.
  - apply reduce_indexed_returns; [|apply wf_nil|constructor].
    eapply Forall_impl; [exact IH|]. intros x Hx Hp p.
    apply Hx. by apply is_plain_object_not_null.
  - apply reduce_fields_returns; [done|apply wf_nil|constructor].
Qed.

(** ** The flattener: what the result holds *)

Lemma last_write_app {A} (l1 l2 : list (string * A)) k :
  last_write (l1 ++ l2) k
  = match last_write l2 k with
    | Some v => Some v
    | None => last_write l1 k
    end.
Proof. unfold last_write. by rewrite rev_app_distr, get_app. Qed.

Lemma last_write_elem {A} (l : list (string * A)) k v :
  last_write l k = Some v -> (k, v) ∈ l.
Proof.
  unfold last_write. intros H. apply get_Some_elem in H.
  by rewrite list_elem_of_In, <- in_rev, <- list_elem_of_In in H.
Qed.

Lemma leaves_not_plain v prefix : is_flat (leaves v prefix).
Proof.
  revert prefix.
  induction v as [|b|n|s|l IH|o IH] using json_nested_ind;
    intros prefix; simpl; try constructor.
  unfold is_flat. induction IH as [|[k x] o Hx Ho IH]; simpl; [constructor|].
  apply Forall_app. split; [|exact IH].
  destruct (is_plain_object x) eqn:E; [apply Hx|by repeat constructor].
Qed.


Lemma reduce_fields_reads prefix (o : list (string * json)) :
  Forall (fun kv => reads_as_writes (snd kv)) o ->
  forall acc f,
    fold_left
      (fun st kv => reduce_step flattenObject prefix st (fst kv) (snd kv))
      o (Some acc) = Some f ->
    forall k,
      get f k = match last_write (leaves (JObj o) prefix) k with
                | Some v => Some v
                | None => get acc k
                end.
Proof.
  induction 1 as [|[k0 x] o Hx Ho IH]; intros acc f Hf k.
  - simpl in Hf. by injection Hf as ->.
  - cbn [fold_left fst snd reduce_step] in Hf.
    change (leaves (JObj ((k0, x) :: o)) prefix)
      with ((if is_plain_object x then leaves x (dotted prefix k0)
             else [(dotted prefix k0, x)]) ++ leaves (JObj o) prefix).
    rewrite last_write_app.
    unfold flatten_step in Hf. destruct (is_plain_object x) eqn:E.
    + destruct (flattenObject_returns_flat x (dotted prefix k0))
        as (g & Hg & [Hnd _] & _); [by apply is_plain_object_not_null|].
      rewrite Hg in Hf. rewrite (IH _ _ Hf k), get_assign.
      unfold last_write at 2. rewrite (get_rev_NoDup g k Hnd).
      simpl in Hx. rewrite (Hx (dotted prefix k0) g E Hg k).
      by destruct (last_write (leaves (JObj o) prefix) k).
    + rewrite (IH _ _ Hf k), get_set.
      destruct (last_write (leaves (JObj o) prefix) k); [done|].
      unfold last_write. simpl.
      by destruct (String.eqb k (dotted prefix k0)).
Qed.

Lemma flattenObject_reads_as_writes v : reads_as_writes v.
Proof.
  induction v as [|b|n|s|l IH|o IH] using json_nested_ind;
    intros prefix f Hp Hf k; try done.
  simpl in Hf. rewrite (reduce_fields_reads prefix o IH [] f Hf k).
  by destruct (last_write (leaves (JObj o) prefix) k).
Qed.

(** ** The flattener: the stated properties *)


(** The example of the specification: [{"id": "r1", "a": {"b": 2}}] becomes
    a record with ["a.b"] and without ["a"]. *)
Example flattenObject_nested_example :
  flattenObject (JObj [("id", JStr "r1"); ("a", JObj [("b", JNum 2)])]) ""
  = Some [("id", JStr "r1"); ("a.b", JNum 2)].
Proof. reflexivity. Qed.

(** Two paths that meet in one key: the later write is the one kept. *)
Example flattenObject_collision_example :
  flattenObject
    (JObj [("a.b", JNum 1); ("a", JObj [("b", JNum 2)])]) ""
  = Some [("a.b", JNum 2)].
Proof. reflexivity. Qed.

(** A property whose name is the empty string leaves the path empty, and
    the properties below it get no dot. *)
Example flattenObject_empty_name_example :
  flattenObject (JObj [("", JObj [("a", JNum 1)])]) "" = Some [("a", JNum 1)].
Proof. reflexivity. Qed.

(** An array and a string as the record: their indices are the keys. *)
Example flattenObject_array_example :
  flattenObject (JArr [JNum 1; JObj [("x", JNull)]]) ""
  = Some [("0", JNum 1); ("1.x", JNull)].
Proof. reflexivity. Qed.

Example flattenObject_string_example :
  flattenObject (JStr "ab") "" = Some [("0", JStr "a"); ("1", JStr "b")].
Proof. reflexivity. Qed.

Lemma dotted_empty k : dotted "" k = k.
Proof. reflexivity. Qed.

Lemma reduce_fields_flat (r : props json) :
  is_flat r ->
  forall acc,
    fold_left
      (fun st kv => reduce_step flattenObject "" st (fst kv) (snd kv))
      r (Some acc)
    = Some (assign acc r).
Proof.
  unfold assign.
  induction 1 as [|[k v] r Hv Hr IH]; intros acc; cbn [fold_left fst snd].
  - done.
  - unfold reduce_step, flatten_step. simpl in Hv. rewrite Hv, dotted_empty.
    apply IH.
Qed.

Lemma flattenObject_JObj (o : props json) prefix :
  flattenObject (JObj o) prefix
  = fold_left
      (fun st kv => reduce_step flattenObject prefix st (fst kv) (snd kv))
      o (@Some (props json) []).
Proof. reflexivity. Qed.

Lemma flattenObject_flat (r : props json) :
  wf r -> is_flat r -> flattenObject (JObj r) "" = Some r.
Proof.
  intros Hwf Hflat.
  rewrite flattenObject_JObj, (reduce_fields_flat r Hflat []).
  f_equal. by apply (assign_rebuild [] r).
Qed.



(** Every value but [null] is flattened to a record. *)
Lemma flattenObject_total (v : json) (prefix : string) :
  v <> JNull -> exists f, flattenObject v prefix = Some f.
Proof.
  intros Hv. destruct (flattenObject_returns_flat v prefix Hv) as (f & Hf & _).
  by exists f.
Qed.

(** C9. On [null] the flattener throws: [Object.keys(null)] is a
    [TypeError], and an ingested array that holds a [null] item aborts the
    whole ingestion. *)
Theorem flattenObject_null_throws :
  flattenObject JNull "" = None /\
  (forall Date_now localeCompare st,
     processIngestedData Date_now localeCompare (JArr [JNull]) st = None).
Proof. split; [reflexivity|]. intros. reflexivity. Qed.

(** ** The record search *)

Lemma scan_candidates_find (o : props json) cs d :
  scan_candidates o cs d
  = match find (fun key => match get o key with
                           | Some v => isArray v
                           | None => false
                           end) cs with
    | Some key => match get o key with
                  | Some (JArr l) => l
                  | _ => d
                  end
    | None => d
    end.
Proof.
  induction cs as [|key cs IH]; simpl; [done|].
  destruct (get o key) as [[]|] eqn:E; simpl; rewrite ?E; done.
Qed.

Lemma located_amended (input : json) : located input = locate_amended input.
Proof.
  unfold located, locate_amended.
  destruct input as [| | | |l|o]; try done.
  unfold dataToSet, first_candidate_array, first_array_value.
  rewrite scan_candidates_find.
  destruct (find _ candidates) as [key|]; simpl.
  - destruct (get o key) as [[| | | |[|x l]|]|]; simpl;
      try (destruct (0 <? length (keys o))%nat; simpl; [|done];
           destruct (find isArray (values o)) as [[| | | |[|y l']|]|];
           done).
  - destruct (0 <? length (keys o))%nat; simpl; [|done].
    destruct (find isArray (values o)) as [[| | | |[|y l']|]|]; done.
Qed.

(** [processIngestedData] goes on with the located array, or signals that
    none was found. *)
Lemma processIngestedData_located (Date_now : nat -> Z)
    (localeCompare : string -> string -> Z) (input : json) (st : AppState) :
  processIngestedData Date_now localeCompare input st
  = match located input with
    | Some d => ingestRecords Date_now localeCompare d st
    | None => Some (setError st (Some msg_no_array))
    end.
Proof.
  unfold processIngestedData, located.
  destruct (dataToSet input); done.
Qed.

(** C2, as amended.  An array is used directly; in an object the first
    candidate name holding an array selects it; when no candidate selected
    a non-empty array, the first array among the values of a non-empty
    object is used; and [NoArrayFound] is signalled exactly when the array
    so found is missing or empty. *)
Theorem located_rules (Date_now : nat -> Z)
    (localeCompare : string -> string -> Z) (input : json) (st : AppState) :
  located input = locate_amended input /\
  processIngestedData Date_now localeCompare input st
  = match located input with
    | Some d => ingestRecords Date_now localeCompare d st
    | None => Some (setError st (Some msg_no_array))
    end.
Proof.
  split; [apply located_amended|apply processIngestedData_located].
Qed.

(** C2, as stated, fails: with an empty array under [data] and records
    under [items], the stated rules stop at [data] and signal
    [NoArrayFound], while the code goes on to the values and ingests the
    records of [items]. *)
Lemma locate_as_stated_fails :
  locate_as_stated
    (JObj [("items", JArr [JObj [("x", JNum 1)]]); ("data", JArr [])]) = None
  /\ located
       (JObj [("items", JArr [JObj [("x", JNum 1)]]); ("data", JArr [])])
     = Some [JObj [("x", JNum 1)]].
Proof. split; reflexivity. Qed.

(** The two examples of the specification. *)
Example located_data_example :
  located (JObj [("meta", JStr "m"); ("data", JArr [JObj []]); ("z", JArr [JNum 1])])
  = Some [JObj []].
Proof. reflexivity. Qed.

Example located_nothing_example : located (JObj [("a", JNum 1)]) = None.
Proof. reflexivity. Qed.

(** ** Identifiers *)

(** C3. A raw [id] of 0 is present and yet replaced by a synthesized one:
    [item.id || flat.id || ...] takes every falsy id for a missing one.
    Ingesting [[{"id": 0, "x": 1}]] leaves a record whose id is
    [gen-0-...]. *)
Theorem normalize_zero_id_replaced (Date_now : nat -> Z)
    (localeCompare : string -> string -> Z) (st : AppState) :
  normalize Date_now 0 (JObj [("id", JNum 0); ("x", JNum 1)])
  = Some [("id", JStr (gen_id 0 (Date_now 0%nat))); ("x", JNum 1)] /\
  exists st',
    processIngestedData Date_now localeCompare
      (JArr [JObj [("id", JNum 0); ("x", JNum 1)]]) st = Some st' /\
    data st' = [[("id", JStr (gen_id 0 (Date_now 0%nat))); ("x", JNum 1)]].
Proof. split; [reflexivity|]. eexists. split; reflexivity. Qed.

(** A truthy raw [id] is the one assigned. *)
Lemma normalize_raw_id (Date_now : nat -> Z) idx item :
  item <> JNull -> truthy (item_id item) = true ->
  exists r, normalize Date_now idx item = Some r /\ get r "id" = item_id item.
Proof.
  intros Hnn Ht. unfold normalize.
  destruct (flattenObject_total item "" Hnn) as (f & ->).
  eexists; split; [done|]. rewrite get_set. simpl.
  unfold js_or, js_or_else. rewrite Ht.
  destruct (item_id item); [by rewrite Ht|done].
Qed.

(** Without a truthy raw [id], a truthy [id] of the flattened form is the
    one assigned. *)
Lemma normalize_flat_id (Date_now : nat -> Z) idx item flat :
  flattenObject item "" = Some flat ->
  truthy (item_id item) = false -> truthy (get flat "id") = true ->
  exists r, normalize Date_now idx item = Some r /\ get r "id" = get flat "id".
Proof.
  intros Hf Hi Ht. unfold normalize. rewrite Hf.
  eexists; split; [done|]. rewrite get_set. simpl.
  unfold js_or, js_or_else. rewrite Hi.
  destruct (get flat "id"); [by rewrite Ht|done].
Qed.

(** With neither, the id is synthesized. *)
Lemma normalize_synthesized (Date_now : nat -> Z) idx item flat :
  flattenObject item "" = Some flat ->
  truthy (item_id item) = false -> truthy (get flat "id") = false ->
  exists r, normalize Date_now idx item = Some r
            /\ get r "id" = Some (JStr (gen_id idx (Date_now idx))).
Proof.
  intros Hf Hi Ht. unfold normalize. rewrite Hf.
  eexists; split; [done|]. rewrite get_set. simpl.
  unfold js_or, js_or_else. rewrite Hi.
  destruct (get flat "id"); [by rewrite Ht|done].
Qed.

(** *** Synthesized identifiers are distinct *)

Lemma pretty_N_go_no_dash (x : N) (s : string) :
  has_dash s = false -> has_dash (pretty_N_go x s) = false.
Proof.
  revert s. induction (N.lt_wf_0 x) as [x _ IH]; intros s Hs.
  destruct (decide (x = 0)%N) as [->|Hx].
  - by rewrite pretty_N_go_0.
  - rewrite pretty_N_go_step by lia. apply IH.
    + apply N.div_lt; lia.
    + simpl. rewrite Hs. unfold pretty_N_char. by repeat case_match.
Qed.

Lemma pretty_nat_no_dash (n : nat) : has_dash (pretty n) = false.
Proof.
  unfold pretty, pretty_nat, pretty, pretty_N.
  case_decide; [done|]. by apply pretty_N_go_no_dash.
Qed.

Lemma split_at_dash (s1 s2 a b : string) :
  has_dash s1 = false -> has_dash s2 = false ->
  s1 +:+ String "-" a = s2 +:+ String "-" b -> s1 = s2.
Proof.
  revert s2. induction s1 as [|c s1 IH]; intros [|c' s2]; simpl;
    intros H1 H2 Heq.
  - done.
  - injection Heq as <- _. by rewrite Ascii.eqb_refl in H2.
  - injection Heq as -> _. by rewrite Ascii.eqb_refl in H1.
  - injection Heq as -> Heq.
    apply orb_false_iff in H1 as [_ H1]. apply orb_false_iff in H2 as [_ H2].
    f_equal. by apply IH.
Qed.

Lemma gen_id_inj i j t t' : gen_id i t = gen_id j t' -> i = j.
Proof.
  unfold gen_id. intros H.
  change ("gen-" +:+ pretty i +:+ "-" +:+ pretty t)
    with (String "g" (String "e" (String "n" (String "-"
            (pretty i +:+ String "-" (pretty t)))))) in H.
  change ("gen-" +:+ pretty j +:+ "-" +:+ pretty t')
    with (String "g" (String "e" (String "n" (String "-"
            (pretty j +:+ String "-" (pretty t')))))) in H.
  injection H as H.
  apply split_at_dash in H; [|apply pretty_nat_no_dash..].
  by apply (inj pretty).
Qed.

(** The items of a pass whose id has to be synthesized. *)
Lemma map_items_synthesized (Date_now : nat -> Z) items idx rs :
  map_items Date_now items idx = Some rs ->
  Forall (fun item =>
            truthy (item_id item) = false /\
            forall flat, flattenObject item "" = Some flat ->
                         truthy (get flat "id") = false) items ->
  map record_id rs
  = map (fun i => Some (JStr (gen_id i (Date_now i)))) (seq idx (length items)).
Proof.
  revert idx rs. induction items as [|item items IH]; intros idx rs; simpl.
  - by intros [= <-] _.
  - destruct (normalize Date_now idx item) as [r|] eqn:Hr; [|done].
    destruct (map_items Date_now items (S idx)) as [rs'|] eqn:Hrs; [|done].
    intros [= <-] Hall. apply Forall_cons in Hall as [[Hi Hf] Hall].
    simpl. f_equal; [|by apply IH].
    unfold normalize in Hr.
    destruct (flattenObject item "") as [flat|] eqn:Hflat; [|done].
    destruct (normalize_synthesized Date_now idx item flat Hflat Hi)
      as (r' & Hr' & Hid); [by apply Hf|].
    unfold normalize in Hr'. rewrite Hflat in Hr'.
    rewrite Hr in Hr'. by injection Hr' as <-.
Qed.

(** Within one pass the synthesized ids are pairwise distinct, whatever the
    clock reads. *)
Lemma synthesized_ids_distinct (Date_now : nat -> Z) items rs :
  map_items Date_now items 0 = Some rs ->
  Forall (fun item =>
            truthy (item_id item) = false /\
            forall flat, flattenObject item "" = Some flat ->
                         truthy (get flat "id") = false) items ->
  NoDup (map record_id rs).
Proof.
  intros Hrs Hall. rewrite (map_items_synthesized _ _ _ _ Hrs Hall).
  apply NoDup_fmap_2_strong; [|apply NoDup_seq].
  intros i j _ _ H.
  apply (gen_id_inj i j (Date_now i) (Date_now j)). congruence.
Qed.

(** ** The example ingestion *)

(** C4, as amended.  Ingesting [[{"x":1},{"x":2}]] yields two records with
    the distinct synthesized ids [gen-0-...] and [gen-1-...], and the
    density counts the assigned [id] along with [x]: it is
    [{x: 2, id: 2}]. *)
Theorem ingest_two_records (Date_now : nat -> Z)
    (localeCompare : string -> string -> Z) (st : AppState) :
  exists st',
    processIngestedData Date_now localeCompare
      (JArr [JObj [("x", JNum 1)]; JObj [("x", JNum 2)]]) st = Some st' /\
    data st'
    = [[("x", JNum 1); ("id", JStr (gen_id 0 (Date_now 0%nat)))];
       [("x", JNum 2); ("id", JStr (gen_id 1 (Date_now 1%nat)))]] /\
    length (data st') = 2%nat /\
    NoDup (map record_id (data st')) /\
    keyDensity st' = [("x", 2); ("id", 2)] /\
    allKeys st' = ["x"].
Proof.
  eexists. split; [reflexivity|]. cbn [data keyDensity allKeys].
  split; [reflexivity|]. split; [reflexivity|]. split; [|done].
  change (NoDup [Some (JStr (gen_id 0 (Date_now 0%nat)));
                 Some (JStr (gen_id 1 (Date_now 1%nat)))]).
  apply NoDup_cons. split; [|apply NoDup_singleton].
  rewrite list_elem_of_singleton. intros H.
  assert (gen_id 0 (Date_now 0%nat) = gen_id 1 (Date_now 1%nat)) as H'
    by congruence.
  by apply gen_id_inj in H'.
Qed.

(** C4, as stated, fails: the density is not [{x: 2}], it has an entry for
    [id] too. *)
Lemma keyDensity_counts_id :
  exists st',
    processIngestedData steady_clock code_unit_compare
      (JArr [JObj [("x", JNum 1)]; JObj [("x", JNum 2)]]) initialState
    = Some st' /\
    get (keyDensity st') "id" = Some 2 /\
    keyDensity st' <> [("x", 2)].
Proof. eexists. split; [reflexivity|]. split; [reflexivity|discriminate]. Qed.

(** ** Failed ingestions *)

Section Ingestion.
Variable Date_now : nat -> Z.
Variable localeCompare : string -> string -> Z.
Variable JSON_parse : string -> option json.

Lemma ingestRecords_error d st st' :
  ingestRecords Date_now localeCompare d st = Some st' -> error st' = None.
Proof.
  unfold ingestRecords.
  destruct (map_items Date_now d 0); [|done]. by intros [= <-].
Qed.

(** An ingestion that ends with an error message set has left the
    working set and the key metadata as they were. *)
Lemma ingestion_error_keeps_working_set st :
  let st' := handlePasteIngest Date_now localeCompare JSON_parse st in
  error st' <> None ->
  data st' = data st /\ allKeys st' = allKeys st
  /\ keyDensity st' = keyDensity st.
Proof.
  unfold handlePasteIngest, processIngestedData. simpl.
  destruct (JSON_parse (rawInput st)) as [input|]; [|done].
  destruct (0 <? length (dataToSet input))%nat; [|done].
  destruct (ingestRecords _ _ _ st) as [st'|] eqn:E; [|done].
  apply ingestRecords_error in E. simpl. by rewrite E.
Qed.

End Ingestion.

(** C7. When the text handed in does not parse ([InvalidJSON]) or parses
    to a value in which no non-empty record array is found
    ([NoArrayFound]), the working set and its key metadata are what they
    were before, and the matching error message is set; this holds for the
    pasted text and for an uploaded file. *)
Theorem failed_ingestion_keeps_working_set (Date_now : nat -> Z)
    (localeCompare : string -> string -> Z)
    (JSON_parse : string -> option json) (st : AppState) (text : string) :
  JSON_parse text = None
  \/ (exists input, JSON_parse text = Some input /\ located input = None) ->
  (rawInput st = text ->
   let st' := handlePasteIngest Date_now localeCompare JSON_parse st in
   same_working_set st st'
   /\ error st' = Some (match JSON_parse text with
                        | None => msg_invalid_text
                        | Some _ => msg_no_array
                        end)) /\
  (let st' := handleFileUpload Date_now localeCompare JSON_parse text st in
   same_working_set st st'
   /\ error st' = Some (match JSON_parse text with
                        | None => msg_invalid_file
                        | Some _ => msg_no_array
                        end)).
Proof.
  unfold handlePasteIngest, handleFileUpload, same_working_set.
  intros [Hp|(input & Hp & Hloc)]; (split; [intros ->|]); rewrite Hp; simpl;
    try done;
    rewrite (processIngestedData_located Date_now localeCompare input st), Hloc;
    done.
Qed.

Lemma failed_ingestion_keeps_working_set_witness :
  (let st' := handlePasteIngest steady_clock code_unit_compare parse_sample
                one_record_state in
   same_working_set one_record_state st'
   /\ error st' = Some msg_no_array) /\
  (let st' := handleFileUpload steady_clock code_unit_compare parse_sample
                "42" one_record_state in
   same_working_set one_record_state st'
   /\ error st' = Some msg_no_array).
Proof.
  destruct (failed_ingestion_keeps_working_set steady_clock code_unit_compare
              parse_sample one_record_state "42") as [Hpaste Hfile].
  - right. exists (JNum 42). split; reflexivity.
  - split; [by apply Hpaste|exact Hfile].
Defined.

(** ** Merging a transformation *)

Lemma sameValueZero_eq a b : sameValueZero a b = true -> a = b.
Proof.
  destruct a as [[]|], b as [[]|]; simpl; try done; intros H; do 2 f_equal.
  - by apply Bool.eqb_prop.
  - by apply Z.eqb_eq.
  - by apply String.eqb_eq.
Qed.

Lemma JsMap_get_set m k' v k :
  JsMap.get (JsMap.set m k' v) k
  = if sameValueZero k' k then Some v else JsMap.get m k.
Proof.
  induction m as [|[k0 v0] m IH]; simpl; [done|].
  destruct (sameValueZero k0 k') eqn:E0; simpl.
  - apply sameValueZero_eq in E0 as ->.
    destruct (sameValueZero k' k); done.
  - rewrite IH. destruct (sameValueZero k0 k) eqn:E1; [|done].
    destruct (sameValueZero k' k) eqn:E2; [|done].
    pose proof (sameValueZero_eq _ _ E1) as H1.
    pose proof (sameValueZero_eq _ _ E2) as H2.
    congruence.
Qed.

Lemma find_app_last {A} (f : A -> bool) (l : list A) (x : A) :
  find f (l ++ [x])
  = match find f l with
    | Some y => Some y
    | None => if f x then Some x else None
    end.
Proof.
  induction l as [|y l IH]; simpl; [done|]. destruct (f y); done.
Qed.

Lemma JsMap_get_fold entries m k :
  JsMap.get (fold_left (fun m e => JsMap.set m (fst e) (snd e)) entries m) k
  = match find (fun e => sameValueZero (fst e) k) (rev entries) with
    | Some e => Some (snd e)
    | None => JsMap.get m k
    end.
Proof.
  revert m. induction entries as [|e es IH]; intros m; simpl; [done|].
  rewrite IH, find_app_last, JsMap_get_set.
  destruct (find _ (rev es)); [done|].
  destruct (sameValueZero (fst e) k); done.
Qed.

(** The map built from the response holds, for an id, the record returned
    last for it. *)
Lemma transformedMap_get out k :
  JsMap.get (transformedMap out) k = last_with_id out k.
Proof.
  unfold transformedMap, JsMap.from, last_with_id.
  rewrite JsMap_get_fold, <- map_rev. simpl.
  induction (rev out) as [|d l IH]; simpl; [done|].
  destruct (sameValueZero (record_id d) k); done.
Qed.

Lemma mergeTransformed_last out prev :
  mergeTransformed out prev
  = map (fun d => default d (last_with_id out (record_id d))) prev.
Proof.
  unfold mergeTransformed. apply map_ext. intros d.
  by rewrite transformedMap_get.
Qed.

Lemma last_with_id_found out id r :
  last_with_id out id = Some r -> r ∈ out /\ record_id r = id.
Proof.
  unfold last_with_id. intros H. apply find_some in H as [Hin Hid].
  split.
  - rewrite list_elem_of_In, in_rev. exact Hin.
  - by apply sameValueZero_eq.
Qed.

(** C6. When the service answers with an array: with a selection, the new
    working set is the old one, in its order, with each record for whose id
    the answer has a record replaced by the record returned last for that
    id, and the others as they were; without a selection, the new working
    set is the answer itself. *)
Theorem transform_merge
    (post_transform : list (props json) -> string -> Response)
    (type : string) (st : AppState) (out : list (props json)) :
  post_transform (itemsToTransform st) type = DataArray out ->
  (selectedIds st = [] -> data st <> []) ->
  data (handleTransform post_transform type st)
  = match selectedIds st with
    | [] => out
    | _ :: _ =>
        map (fun d => default d (last_with_id out (record_id d))) (data st)
    end.
Proof.
  intros Hpost Hne. unfold handleTransform.
  destruct (selectedIds st) as [|s sel] eqn:Hsel; simpl.
  - destruct (data st) as [|d ds] eqn:Hd; [by destruct Hne|]. simpl.
    by rewrite Hpost.
  - rewrite Hpost. simpl. apply mergeTransformed_last.
Qed.

Lemma transform_merge_witness :
  data (handleTransform mark_verified "validate_bbox" three_record_state)
  = [[("id", JStr "id1")];
     [("id", JStr "id2"); ("status", JStr "verified")];
     [("id", JStr "id3")]].
Proof.
  apply (transform_merge mark_verified "validate_bbox" three_record_state
           [[("id", JStr "id2"); ("status", JStr "verified")]]).
  - reflexivity.
  - discriminate.
Defined.

(** C10. With a selection, a transformation leaves the working set with
    the length and the sequence of ids it had, whatever the service
    answers: every record of the result is a record of the old working set
    or a returned record with the id of the record it replaces. *)
Theorem partial_transform_keeps_ids
    (post_transform : list (props json) -> string -> Response)
    (type : string) (st : AppState) :
  selectedIds st <> [] ->
  let st' := handleTransform post_transform type st in
  length (data st') = length (data st) /\
  map record_id (data st') = map record_id (data st) /\
  Forall2 (fun d' d => d' = d \/ exists out,
             post_transform (itemsToTransform st) type = DataArray out
             /\ d' ∈ out)
    (data st') (data st).
Proof.
  intros Hsel. unfold handleTransform.
  destruct (selectedIds st) as [|s sel] eqn:Es; [done|]. simpl.
  destruct (post_transform _ type) as [| |out] eqn:Hpost; simpl.
  - repeat split; try done. apply Forall2_same_length_lookup_2; [done|].
    intros i x y Hx Hy. left. congruence.
  - repeat split; try done. apply Forall2_same_length_lookup_2; [done|].
    intros i x y Hx Hy. left. congruence.
  - rewrite mergeTransformed_last. split; [by rewrite length_map|]. split.
    + rewrite map_map. apply map_ext. intros d.
      destruct (last_with_id out (record_id d)) as [r|] eqn:E; simpl; [|done].
      by apply last_with_id_found in E as [_ ?].
    + induction (data st) as [|d ds IH]; simpl; constructor; [|exact IH].
      destruct (last_with_id out (record_id d)) as [r|] eqn:E; simpl;
        [|by left].
      right. exists out. split; [done|].
      by apply last_with_id_found in E as [? _].
Qed.

Lemma partial_transform_keeps_ids_witness :
  let st' := handleTransform mark_verified "validate_bbox" three_record_state in
  length (data st') = 3%nat /\
  map record_id (data st')
  = [Some (JStr "id1"); Some (JStr "id2"); Some (JStr "id3")].
Proof.
  destruct (partial_transform_keeps_ids mark_verified "validate_bbox"
              three_record_state) as (Hlen & Hids & _).
  - discriminate.
  - split; [exact Hlen|exact Hids].
Defined.

(** ** The key order *)

Lemma num_or_0_default x : num_or_0 x = default 0 x.
Proof. destruct x as [n|]; simpl; [|done]. by destruct (Z.eqb_spec n 0). Qed.

Lemma indexOf_from_position l x i :
  indexOf_from l x i
  = match position l x with
    | Some n => i + Z.of_nat n
    | None => -1
    end.
Proof.
  revert i. induction l as [|y l IH]; intros i; simpl; [done|].
  destruct (String.eqb y x); [lia|].
  rewrite IH. destruct (position l x); [lia|done].
Qed.

Lemma indexOf_position l x :
  indexOf l x = match position l x with
                | Some n => Z.of_nat n
                | None => -1
                end.
Proof.
  unfold indexOf. rewrite indexOf_from_position.
  destruct (position l x); [lia|done].
Qed.

(** The comparator answers "not after" exactly along the stated order. *)
Lemma compareKeys_le collate density a b :
  compareKeys collate density a b <= 0 <-> key_order collate density a b.
Proof.
  unfold compareKeys, key_order, density_at.
  rewrite !indexOf_position, !num_or_0_default.
  destruct (position priority a) as [i|], (position priority b) as [j|].
  - replace (Z.of_nat i =? -1) with false by (symmetry; apply Z.eqb_neq; lia).
    replace (Z.of_nat j =? -1) with false by (symmetry; apply Z.eqb_neq; lia).
    simpl. lia.
  - replace (Z.of_nat i =? -1) with false by (symmetry; apply Z.eqb_neq; lia).
    simpl. split; [done|lia].
  - replace (Z.of_nat j =? -1) with false by (symmetry; apply Z.eqb_neq; lia).
    simpl. split; [lia|done].
  - simpl.
    destruct (Z.eqb_spec (default 0 (get density b)) (default 0 (get density a)))
      as [E|E]; simpl; lia.
Qed.

Section KeyOrder.
Variable collate : string -> string -> Z.
Hypothesis collate_consistent : consistent_comparator collate.
Variable density : props Z.

Lemma key_order_total a b :
  key_order collate density a b \/ key_order collate density b a.
Proof.
  destruct collate_consistent as [Htot _]. unfold key_order.
  destruct (position priority a), (position priority b); try tauto.
  - lia.
  - destruct (Htot a b); lia.
Qed.

Lemma key_order_trans a b c :
  key_order collate density a b -> key_order collate density b c ->
  key_order collate density a c.
Proof.
  destruct collate_consistent as [_ Htr]. unfold key_order.
  destruct (position priority a), (position priority b),
    (position priority c); try tauto; try lia.
  intros [H1|[H1 H1']] [H2|[H2 H2']]; try lia.
  right. split; [lia|]. by apply (Htr a b c).
Qed.

Lemma sort_insert_perm x l :
  sort_insert (compareKeys collate density) x l ≡ₚ x :: l.
Proof.
  induction l as [|y l IH]; simpl; [done|].
  destruct (_ <=? 0); [done|]. rewrite IH. apply Permutation_swap.
Qed.

Lemma sort_perm l : sort (compareKeys collate density) l ≡ₚ l.
Proof.
  induction l as [|x l IH]; simpl; [done|].
  by rewrite sort_insert_perm, IH.
Qed.

Lemma sort_insert_sorted x l :
  StronglySorted (key_order collate density) l ->
  StronglySorted (key_order collate density)
    (sort_insert (compareKeys collate density) x l).
Proof.
  induction 1 as [|y l Hs IH Hall]; simpl; [by repeat constructor|].
  destruct (Z.leb_spec (compareKeys collate density x y) 0) as [Hle|Hgt].
  - apply compareKeys_le in Hle.
    constructor; [by constructor|]. constructor; [done|].
    eapply Forall_impl; [exact Hall|].
    intros z Hz. by apply (key_order_trans x y z).
  - constructor; [exact IH|].
    rewrite sort_insert_perm. constructor; [|done].
    destruct (key_order_total x y) as [Hxy|Hyx]; [|done].
    apply compareKeys_le in Hxy. lia.
Qed.

Lemma sort_sorted l :
  StronglySorted (key_order collate density)
    (sort (compareKeys collate density) l).
Proof.
  induction l as [|x l IH]; simpl; [constructor|].
  by apply sort_insert_sorted.
Qed.

End KeyOrder.

Lemma filter_sorted {A} (R : A -> A -> Prop) (f : A -> bool) l :
  StronglySorted R l -> StronglySorted R (List.filter f l).
Proof.
  induction 1 as [|x l Hs IH Hall]; simpl; [constructor|].
  destruct (f x); [|done]. constructor; [done|].
  rewrite Forall_forall in *. intros y Hy.
  apply Hall. rewrite list_elem_of_In in *. by apply filter_In in Hy as [? _].
Qed.

Lemma Set_add_elem s x y : y ∈ Set_add s x <-> y ∈ s \/ y = x.
Proof.
  unfold Set_add. destruct (existsb (String.eqb x) s) eqn:E.
  - split; [by left|]. intros [H| ->]; [done|].
    apply existsb_exists in E as (z & Hz & Hxz).
    apply String.eqb_eq in Hxz as ->. by apply list_elem_of_In.
  - rewrite elem_of_app, list_elem_of_singleton. done.
Qed.

Lemma Set_add_NoDup s x : NoDup s -> NoDup (Set_add s x).
Proof.
  unfold Set_add. intros Hs. destruct (existsb (String.eqb x) s) eqn:E; [done|].
  apply NoDup_app. split; [done|]. split; [|apply NoDup_singleton].
  intros y Hy Hyx. apply list_elem_of_singleton in Hyx as ->.
  assert (existsb (String.eqb x) s = true) as E'; [|congruence].
  apply existsb_exists. exists x. split; [by apply list_elem_of_In|].
  apply String.eqb_refl.
Qed.

Lemma Set_from_elem l s y :
  y ∈ fold_left Set_add l s <-> y ∈ s \/ y ∈ l.
Proof.
  revert s. induction l as [|x l IH]; intros s; simpl.
  - rewrite elem_of_nil. tauto.
  - rewrite IH, Set_add_elem, elem_of_cons. tauto.
Qed.

Lemma Set_from_NoDup l s : NoDup s -> NoDup (fold_left Set_add l s).
Proof.
  revert s. induction l as [|x l IH]; intros s Hs; simpl; [done|].
  by apply IH, Set_add_NoDup.
Qed.

Lemma observed_keys_elem processed k :
  k ∈ observed_keys processed <-> exists r, r ∈ processed /\ k ∈ keys r.
Proof.
  unfold observed_keys. rewrite Set_from_elem, elem_of_nil.
  rewrite list_elem_of_In, in_flat_map.
  split.
  - intros [[]|(r & Hr & Hk)]. exists r. by rewrite !list_elem_of_In.
  - intros (r & Hr & Hk). right. exists r. by rewrite <- !list_elem_of_In.
Qed.

(** *** The density counts records *)

Lemma density_at_count_key d k' k :
  density_at (count_key d k') k
  = density_at d k + (if String.eqb k k' then 1 else 0).
Proof.
  unfold density_at, count_key. rewrite get_set, num_or_0_default.
  destruct (String.eqb_spec k k') as [->|_]; simpl; lia.
Qed.

Lemma density_at_fold_keys ks d k :
  NoDup ks ->
  density_at (fold_left count_key ks d) k
  = density_at d k + (if decide (k ∈ ks) then 1 else 0).
Proof.
  intros Hnd. revert d. induction Hnd as [|x ks Hx Hnd IH]; intros d; simpl.
  - lia.
  - rewrite IH, density_at_count_key.
    destruct (String.eqb_spec k x) as [->|Hne].
    + rewrite (decide_False (P := x ∈ ks)) by done.
      rewrite (decide_True (P := x ∈ x :: ks)) by apply list_elem_of_here.
      lia.
    + destruct (decide (k ∈ ks)) as [Hin|Hnin].
      * rewrite decide_True by (by apply list_elem_of_further). lia.
      * rewrite decide_False; [lia|].
        rewrite elem_of_cons. tauto.
Qed.

Lemma density_of_counts (rs : list (props json)) d k :
  Forall (fun r => NoDup (keys r)) rs ->
  density_at
    (fold_left (fun density item => fold_left count_key (keys item) density)
       rs d) k
  = density_at d k + Z.of_nat (records_with k rs).
Proof.
  unfold records_with. intros Hall. revert d.
  induction Hall as [|r rs Hr Hall IH]; intros d; simpl; [lia|].
  rewrite IH, density_at_fold_keys by done.
  destruct (has r k) eqn:E.
  - apply has_true in E. rewrite decide_True by done. simpl length. lia.
  - apply has_false in E. rewrite decide_False by done. lia.
Qed.

Lemma map_items_wf (Date_now : nat -> Z) items idx rs :
  map_items Date_now items idx = Some rs -> Forall wf rs.
Proof.
  revert idx rs. induction items as [|item items IH]; intros idx rs; simpl.
  - intros [= <-]. constructor.
  - destruct (normalize Date_now idx item) as [r|] eqn:Hr; [|done].
    destruct (map_items Date_now items (S idx)) as [rs'|] eqn:Hrs; [|done].
    intros [= <-]. constructor; [|by eapply IH].
    unfold normalize in Hr. destruct (flattenObject item ""); [|done].
    injection Hr as <-. apply wf_set, wf_assign, wf_nil.
Qed.


Lemma code_unit_compare_consistent : consistent_comparator code_unit_compare.
Proof.
  split.
  - induction a as [|x a IH]; intros [|y b]; simpl; try lia.
    destruct (N.ltb_spec (N_of_ascii x) (N_of_ascii y)),
      (N.ltb_spec (N_of_ascii y) (N_of_ascii x)); try lia.
    apply IH.
  - induction a as [|x a IH]; intros [|y b] [|z c]; simpl; try lia.
    destruct (N.ltb_spec (N_of_ascii x) (N_of_ascii y)),
      (N.ltb_spec (N_of_ascii y) (N_of_ascii x)),
      (N.ltb_spec (N_of_ascii y) (N_of_ascii z)),
      (N.ltb_spec (N_of_ascii z) (N_of_ascii y)),
      (N.ltb_spec (N_of_ascii x) (N_of_ascii z)),
      (N.ltb_spec (N_of_ascii z) (N_of_ascii x)); try lia.
    apply IH.
Qed.



(** * Further properties of the code *)

(** ** The flattener: what disappears, and what the keys look like *)

Lemma get_nowhere {A} (o : props A) : (forall k, get o k = None) -> o = [].
Proof.
  destruct o as [|[k v] o]; [done|]. intros H. specialize (H k).
  simpl in H. by rewrite String.eqb_refl in H.
Qed.

Lemma flattenObject_no_leaves (v : json) prefix :
  is_plain_object v = true -> leaves v prefix = [] ->
  flattenObject v prefix = Some [].
Proof.
  intros Hp Hl.
  destruct (flattenObject_returns_flat v prefix) as (f & Hf & _ & _);
    [by apply is_plain_object_not_null|].
  rewrite Hf. f_equal. apply get_nowhere. intros k.
  rewrite (flattenObject_reads_as_writes v prefix f Hp Hf k), Hl. done.
Qed.

Lemma assign_nil {A} (o : props A) : assign o [] = o.
Proof. reflexivity. Qed.

(** X1. A property whose value is a plain object without leaf values (an
    empty object, or one that holds only such objects) leaves no trace in
    the flat record: flattening with the property gives what flattening
    without it gives. *)
Theorem flattenObject_drops_leafless (o1 o2 : props json) (k : string)
    (v : json) (prefix : string) :
  is_plain_object v = true ->
  leaves v (dotted prefix k) = [] ->
  flattenObject (JObj (o1 ++ (k, v) :: o2)) prefix
  = flattenObject (JObj (o1 ++ o2)) prefix.
Proof.
  intros Hp Hl. rewrite !flattenObject_JObj, !fold_left_app.
  cbn [fold_left fst snd].
  match goal with
  | |- context [reduce_step _ _ ?st k v] =>
      replace (reduce_step flattenObject prefix st k v) with st
  end; [done|].
  match goal with |- ?st = _ => destruct st as [acc|] end; [|done].
  cbn [reduce_step]. unfold flatten_step.
  by rewrite Hp, (flattenObject_no_leaves v _ Hp Hl), assign_nil.
Qed.

Lemma flattenObject_drops_leafless_witness :
  flattenObject
    (JObj [("x", JNum 1); ("a", JObj [("b", JObj [])]); ("y", JNull)]) ""
  = flattenObject (JObj [("x", JNum 1); ("y", JNull)]) "".
Proof.
  apply (flattenObject_drops_leafless [("x", JNum 1)] [("y", JNull)] "a"
           (JObj [("b", JObj [])]) ""); reflexivity.
Defined.

Lemma append_nil (b : string) : "" +:+ b = b.
Proof. reflexivity. Qed.

Lemma append_cons (c : ascii) (a b : string) :
  String c a +:+ b = String c (a +:+ b).
Proof. reflexivity. Qed.

Lemma starts_with_app (a b : string) : starts_with (a +:+ b) a = true.
Proof.
  induction a as [|c a IH]; [done|].
  rewrite append_cons. simpl. by rewrite Ascii.eqb_refl, IH.
Qed.

Lemma starts_with_app_l (s a b : string) :
  starts_with s (a +:+ b) = true -> starts_with s a = true.
Proof.
  revert s. induction a as [|c a IH]; intros s; [done|].
  rewrite append_cons. simpl. destruct s as [|d s]; [done|].
  intros H. apply andb_true_iff in H as [-> H]. simpl. by apply IH.
Qed.

Lemma append_assoc (a b c : string) : (a +:+ b) +:+ c = a +:+ (b +:+ c).
Proof.
  induction a as [|x a IH]; [done|]. rewrite !append_cons. by f_equal.
Qed.

Lemma dotted_nonempty prefix k :
  prefix <> "" -> dotted prefix k = (prefix +:+ ".") +:+ k
                  /\ dotted prefix k <> "".
Proof.
  intros Hne. unfold dotted. destruct prefix as [|c p]; [done|].
  split; [done|]. simpl. by rewrite !append_cons.
Qed.

Lemma leaves_keys_prefixed (v : json) (prefix : string) :
  prefix <> "" ->
  Forall (fun kv => starts_with (fst kv) (prefix +:+ ".") = true)
    (leaves v prefix).
Proof.
  revert prefix.
  induction v as [|b|n|s|l IH|o IH] using json_nested_ind;
    intros prefix Hne; simpl; try constructor.
  induction IH as [|[k x] o Hx Ho IH]; simpl; [constructor|].
  apply Forall_app. split; [|exact IH].
  destruct (dotted_nonempty prefix k Hne) as [Hd Hdne].
  destruct (is_plain_object x).
  - eapply Forall_impl; [apply Hx, Hdne|].
    intros [k' x'] Hk'. simpl in *. rewrite Hd, append_assoc in Hk'.
    by apply starts_with_app_l in Hk'.
  - constructor; [|constructor]. simpl. rewrite Hd. apply starts_with_app.
Qed.

(** X2. Flattening under a non-empty path yields only keys that begin
    with that path and a dot: what a nested object contributes cannot be
    mistaken for a key of another top-level property name. *)
Theorem flattenObject_keys_prefixed (o : props json) (prefix : string) :
  prefix <> "" ->
  exists f,
    flattenObject (JObj o) prefix = Some f /\
    Forall (fun k => starts_with k (prefix +:+ ".") = true) (keys f).
Proof.
  intros Hne.
  destruct (flattenObject_returns_flat (JObj o) prefix) as (f & Hf & _ & _);
    [done|].
  exists f. split; [exact Hf|].
  apply Forall_forall. intros k Hk.
  destruct (get f k) as [x|] eqn:E; [|by apply get_None in E].
  rewrite (flattenObject_reads_as_writes (JObj o) prefix f eq_refl Hf k) in E.
  apply last_write_elem in E.
  pose proof (leaves_keys_prefixed (JObj o) prefix Hne) as Hall.
  rewrite Forall_forall in Hall. exact (Hall (k, x) E).
Qed.

Lemma flattenObject_keys_prefixed_witness :
  exists f,
    flattenObject (JObj [("b", JNum 2); ("c", JObj [("d", JNull)])]) "a"
    = Some f /\
    Forall (fun k => starts_with k ("a" +:+ ".") = true) (keys f).
Proof.
  apply (flattenObject_keys_prefixed
           [("b", JNum 2); ("c", JObj [("d", JNull)])] "a").
  discriminate.
Defined.

Lemma length_set_new {A} (o : props A) k v :
  k ∉ keys o -> length (set o k v) = S (length o).
Proof.
  intros Hk. unfold set. apply has_false in Hk as ->.
  induction o as [|[k1 v1] o IH]; simpl; [done|].
  destruct (comes_before k k1); simpl; [done|]. by rewrite IH.
Qed.

(** Elements that are not plain objects are written one by one under their
    indices. *)
Lemma reduce_indexed_elements recur (l : list json) :
  Forall (fun x => is_plain_object x = false) l ->
  forall (i0 : nat) (acc : props json),
    (forall k, k ∈ keys acc -> exists j : nat, (j < i0)%nat /\ k = pretty j) ->
    exists f,
      reduce_indexed recur "" l i0 (Some acc) = Some f /\
      length f = (length acc + length l)%nat /\
      (forall i : nat,
         get f (pretty i)
         = if decide (i0 <= i < i0 + length l)%nat
           then l !! (i - i0)%nat
           else get acc (pretty i)).
Proof.
  unfold reduce_indexed.
  induction 1 as [|x l Hx Hl IH]; intros i0 acc Hacc; cbn [fold_left fst snd].
  - exists acc. split; [done|]. split; [simpl; lia|].
    intros i. rewrite decide_False by (simpl; lia). done.
  - cbn [reduce_step]. unfold flatten_step. rewrite Hx, dotted_empty.
    assert (pretty i0 ∉ keys acc) as Hnew.
    { intros Hin. destruct (Hacc _ Hin) as (j & Hj & Heq).
      apply (inj pretty) in Heq. lia. }
    destruct (IH (S i0) (set acc (pretty i0) x)) as (f & Hf & Hlen & Hget).
    { intros k Hk. apply elem_of_keys_set in Hk as [->|Hk].
      - exists i0. split; [lia|done].
      - destruct (Hacc k Hk) as (j & Hj & ->). exists j. split; [lia|done]. }
    exists f. split; [exact Hf|]. split.
    + rewrite Hlen, length_set_new by done. simpl. lia.
    + intros i. rewrite Hget, get_set. simpl length.
      destruct (decide (i = i0)) as [->|Hne].
      * rewrite decide_False by lia. rewrite String.eqb_refl.
        rewrite decide_True by lia. by rewrite Nat.sub_diag.
      * replace (String.eqb (pretty i) (pretty i0)) with false.
        2:{ symmetry. apply String.eqb_neq. intros Heq.
            by apply (inj pretty) in Heq. }
        destruct (decide (S i0 <= i < S i0 + length l)%nat) as [Hin|Hout].
        -- rewrite decide_True by lia.
           replace (i - i0)%nat with (S (i - S i0)) by lia. done.
        -- rewrite decide_False by lia. done.
Qed.

(** X3. An array taken as a record whose elements are not plain objects is
    flattened to the record of its elements under their indices: as many
    keys as elements, and under the decimal form of [i] the element
    [i]. *)
Theorem flattenObject_array_of_values (l : list json) :
  Forall (fun x => is_plain_object x = false) l ->
  exists f,
    flattenObject (JArr l) "" = Some f /\
    length f = length l /\
    (forall i : nat, get f (pretty i) = l !! i).
Proof.
  intros Hl.
  destruct (reduce_indexed_elements flattenObject l Hl 0 [])
    as (f & Hf & Hlen & Hget).
  { intros k Hk. by apply elem_of_nil in Hk. }
  exists f. split; [exact Hf|]. split; [exact Hlen|].
  intros i. rewrite Hget, Nat.sub_0_r.
  case_decide as Hin; [done|]. simpl.
  symmetry. apply lookup_ge_None. lia.
Qed.

Lemma flattenObject_array_of_values_witness :
  exists f,
    flattenObject (JArr [JNum 7; JArr []; JNull]) "" = Some f /\
    length f = 3%nat /\
    (forall i : nat, get f (pretty i) = [JNum 7; JArr []; JNull] !! i).
Proof.
  apply (flattenObject_array_of_values [JNum 7; JArr []; JNull]).
  repeat constructor.
Defined.

Lemma length_string_chars (s : string) :
  length (string_chars s) = String.length s.
Proof.
  unfold string_chars. rewrite length_map.
  induction s as [|c s IH]; simpl; [done|]. by rewrite IH.
Qed.

(** X4. A string taken as a record is flattened to the record of its code
    units: under the decimal form of [i] the one-unit string at place
    [i], and nothing else. *)
Theorem flattenObject_string_chars (s : string) :
  exists f,
    flattenObject (JStr s) "" = Some f /\
    length f = String.length s /\
    (forall i : nat,
       get f (pretty i)
       = (fun c => JStr (String c EmptyString))
           <$> list_ascii_of_string s !! i).
Proof.
  destruct (reduce_indexed_elements (fun _ _ => None) (string_chars s))
    with (i0 := 0%nat) (acc := @nil (string * json))
    as (f & Hf & Hlen & Hget).
  { unfold string_chars. apply Forall_forall. intros x Hx.
    apply list_elem_of_fmap in Hx as (c & -> & _). done. }
  { intros k Hk. by apply elem_of_nil in Hk. }
  exists f. split; [exact Hf|].
  pose proof (length_string_chars s) as Hls.
  split; [by rewrite Hlen, Hls|].
  intros i. rewrite Hget, Nat.sub_0_r.
  case_decide as Hin.
  - unfold string_chars. by rewrite list_lookup_fmap.
  - simpl. rewrite <- list_lookup_fmap. symmetry. apply lookup_ge_None.
    change (length (string_chars s) <= i)%nat. lia.
Qed.

(** ** The record search: how far it looks and what it prefers *)

Lemma first_candidate_array_value (o : props json) l :
  first_candidate_array o = Some l -> JArr l ∈ values o.
Proof.
  unfold first_candidate_array.
  destruct (find _ candidates) as [key|]; [|done].
  destruct (get o key) as [[| | | |l'|]|] eqn:E; try done.
  intros [= ->]. apply get_Some_elem in E.
  apply (list_elem_of_fmap_2 snd) in E. exact E.
Qed.

Lemma first_array_value_value (o : props json) l :
  first_array_value o = Some l -> JArr l ∈ values o.
Proof.
  unfold first_array_value.
  destruct (find isArray (values o)) as [[| | | |l'|]|] eqn:E; try done.
  intros [= ->]. apply find_some in E as [E _]. by apply list_elem_of_In.
Qed.

(** X5. The search is shallow: the array it hands on is the input itself
    or the value of one of the input's own properties, never an array that
    lies deeper; and it is never empty. *)
Theorem located_is_shallow (input : json) (d : list json) :
  located input = Some d ->
  d <> [] /\
  (input = JArr d \/ exists o, input = JObj o /\ JArr d ∈ values o).
Proof.
  rewrite located_amended. unfold locate_amended, nonempty.
  destruct input as [| | | |l|o]; try done.
  - destruct l as [|x l]; [done|]. intros [= <-]. split; [done|by left].
  - destruct (first_candidate_array o) as [[|x l]|] eqn:Ec.
    + destruct (0 <? length (keys o))%nat; [|done].
      destruct (first_array_value o) as [[|y l']|] eqn:Ev; try done.
      intros [= <-]. split; [done|]. right. exists o. split; [done|].
      by apply first_array_value_value.
    + intros [= <-]. split; [done|]. right. exists o. split; [done|].
      by apply first_candidate_array_value.
    + destruct (0 <? length (keys o))%nat; [|done].
      destruct (first_array_value o) as [[|y l']|] eqn:Ev; try done.
      intros [= <-]. split; [done|]. right. exists o. split; [done|].
      by apply first_array_value_value.
Qed.

Lemma located_is_shallow_witness :
  [JNum 1] <> [] /\
  (JObj [("meta", JObj [("data", JArr [JNum 9])]); ("rows", JArr [JNum 1])]
   = JArr [JNum 1]
   \/ exists o,
       JObj [("meta", JObj [("data", JArr [JNum 9])]); ("rows", JArr [JNum 1])]
       = JObj o /\ JArr [JNum 1] ∈ values o).
Proof.
  apply (located_is_shallow
           (JObj [("meta", JObj [("data", JArr [JNum 9])]);
                  ("rows", JArr [JNum 1])])).
  reflexivity.
Defined.

(** An array that lies one level down is not found. *)
Example located_nested_example :
  located (JObj [("meta", JObj [("data", JArr [JNum 9])])]) = None.
Proof. reflexivity. Qed.

Lemma find_candidate_split (o : props json) pre c post :
  Forall (fun c' => forall l, get o c' <> Some (JArr l)) pre ->
  (exists l, get o c = Some (JArr l)) ->
  find (fun key => match get o key with
                   | Some v => isArray v
                   | None => false
                   end) (pre ++ c :: post) = Some c.
Proof.
  intros Hpre (l & Hc). induction Hpre as [|c' pre Hc' Hpre IH]; simpl.
  - by rewrite Hc.
  - destruct (get o c') as [[| | | |l'|]|] eqn:E; simpl; try exact IH.
    by destruct (Hc' l').
Qed.

(** X6. A candidate name that holds a non-empty array wins over everything
    but the candidates before it: when none of those holds an array, its
    array is the one used, whatever other properties the object has. *)
Theorem located_candidate_priority (o : props json) (pre post : list string)
    (c : string) (d : list json) :
  candidates = pre ++ c :: post ->
  Forall (fun c' => forall l, get o c' <> Some (JArr l)) pre ->
  get o c = Some (JArr d) ->
  d <> [] ->
  located (JObj o) = Some d.
Proof.
  intros Hsplit Hpre Hc Hd. rewrite located_amended.
  unfold locate_amended, first_candidate_array.
  rewrite Hsplit, (find_candidate_split o pre c post Hpre) by eauto.
  rewrite Hc. by destruct d.
Qed.

Lemma located_candidate_priority_witness :
  located
    (JObj [("records", JArr [JNum 3]); ("other", JArr [JNum 4]);
           ("data", JArr [JNum 1; JNum 2]); ("task_results", JStr "none")])
  = Some [JNum 1; JNum 2].
Proof.
  apply (located_candidate_priority _ ["task_results"] ["items"; "results"; "records"] "data").
  - reflexivity.
  - repeat constructor. intros l. discriminate.
  - reflexivity.
  - discriminate.
Defined.

(** X7. An object whose only property holds a non-empty array always
    yields that array, whatever the property is called. *)
Theorem located_single_property (k : string) (x : json) (l : list json) :
  located (JObj [(k, JArr (x :: l))]) = Some (x :: l).
Proof.
  rewrite located_amended. unfold locate_amended, first_candidate_array.
  destruct (find _ candidates) as [key|] eqn:E.
  - apply find_some in E as [_ E]. cbn [get] in *.
    destruct (String.eqb key k); done.
  - reflexivity.
Qed.

(** ** Ingestion: what the records and the key metadata look like *)

Lemma gen_id_truthy idx now : truthy (Some (JStr (gen_id idx now))) = true.
Proof. reflexivity. Qed.

Lemma js_or_else_truthy a idx now :
  truthy (Some (js_or_else a (JStr (gen_id idx now)))) = true.
Proof.
  unfold js_or_else. destruct a as [v|]; [|apply gen_id_truthy].
  destruct (truthy (Some v)) eqn:E; [exact E|apply gen_id_truthy].
Qed.

Lemma map_items_records (Date_now : nat -> Z) items idx rs :
  map_items Date_now items idx = Some rs ->
  Forall2
    (fun item r =>
       exists flat,
         flattenObject item "" = Some flat /\
         (forall k, k <> "id" -> get r k = get flat k) /\
         truthy (get r "id") = true /\ wf r)
    items rs.
Proof.
  revert idx rs. induction items as [|item items IH]; intros idx rs; simpl.
  - intros [= <-]. constructor.
  - destruct (normalize Date_now idx item) as [r|] eqn:Hr; [|done].
    destruct (map_items Date_now items (S idx)) as [rs'|] eqn:Hrs; [|done].
    intros [= <-]. constructor; [|by eapply IH].
    unfold normalize in Hr.
    destruct (flattenObject item "") as [flat|] eqn:Hflat; [|done].
    injection Hr as <-. exists flat. split; [done|].
    destruct (flattenObject_returns_flat item "") as (f & Hf & Hwf & _).
    { intros ->. done. }
    rewrite Hflat in Hf. injection Hf as <-.
    split; [|split].
    + intros k Hk. rewrite get_set.
      replace (String.eqb k "id") with false
        by (symmetry; by apply String.eqb_neq).
      rewrite get_assign. unfold last_write.
      rewrite (get_rev_NoDup flat k (proj1 Hwf)).
      by destruct (get flat k).
    + rewrite get_set, String.eqb_refl. apply js_or_else_truthy.
    + apply wf_set, wf_assign, wf_nil.
Qed.

Lemma ingestRecords_shape (Date_now : nat -> Z)
    (localeCompare : string -> string -> Z) d st st' :
  ingestRecords Date_now localeCompare d st = Some st' ->
  exists processed,
    map_items Date_now d 0 = Some processed /\
    data st' = processed /\
    keyDensity st' = density_of processed /\
    allKeys st'
    = List.filter
        (fun k => negb (String.eqb k "id") && negb (String.eqb k "status"))
        (sort (compareKeys localeCompare (density_of processed))
           (observed_keys processed)) /\
    selectedIds st' = selectedIds st.
Proof.
  unfold ingestRecords.
  destruct (map_items Date_now d 0) as [processed|]; [|done].
  intros [= <-]. by exists processed.
Qed.

(** X8. After an ingestion the working set has one record per item of the
    located array, in the same order; each record has a truthy [id], holds
    under every other key what the flattening of its item holds, and is a
    well-formed object. *)
Theorem ingested_records (Date_now : nat -> Z)
    (localeCompare : string -> string -> Z) (input : json)
    (d : list json) (st st' : AppState) :
  located input = Some d ->
  processIngestedData Date_now localeCompare input st = Some st' ->
  Forall2
    (fun item r =>
       exists flat,
         flattenObject item "" = Some flat /\
         (forall k, k <> "id" -> get r k = get flat k) /\
         truthy (get r "id") = true /\ wf r)
    d (data st').
Proof.
  intros Hloc Hst. rewrite processIngestedData_located, Hloc in Hst.
  apply ingestRecords_shape in Hst as (processed & Hmap & -> & _).
  by eapply map_items_records.
Qed.

Lemma ingested_records_witness :
  Forall2
    (fun item r =>
       exists flat,
         flattenObject item "" = Some flat /\
         (forall k, k <> "id" -> get r k = get flat k) /\
         truthy (get r "id") = true /\ wf r)
    [JObj [("b", JNum 1); ("a", JNum 1); ("text", JStr "t");
           ("status", JStr "ok"); ("c", JObj [("d", JNull)])];
     JObj [("c", JObj [("d", JNum 5)]); ("id", JStr "r2")]]
    (data sample_ingested).
Proof.
  apply (ingested_records steady_clock code_unit_compare sample_input _
           initialState sample_ingested); reflexivity.
Defined.

Lemma records_with_le k (rs : list (props json)) :
  (records_with k rs <= length rs)%nat.
Proof. unfold records_with. apply filter_length_le. Qed.

Lemma records_with_pos k (rs : list (props json)) r :
  r ∈ rs -> k ∈ keys r -> (1 <= records_with k rs)%nat.
Proof.
  unfold records_with. intros Hr Hk.
  assert (In r (List.filter (fun r => has r k) rs)) as Hin.
  { apply filter_In. split; [by apply list_elem_of_In|by apply has_true]. }
  destruct (List.filter _ rs); [done|simpl; lia].
Qed.

Lemma records_with_all k (rs : list (props json)) :
  Forall (fun r => has r k = true) rs -> records_with k rs = length rs.
Proof.
  unfold records_with. induction 1 as [|r rs Hr Hall IH]; simpl; [done|].
  rewrite Hr. simpl. by rewrite IH.
Qed.

Lemma ingested_keys (Date_now : nat -> Z)
    (localeCompare : string -> string -> Z) d st st' :
  ingestRecords Date_now localeCompare d st = Some st' ->
  NoDup (allKeys st') /\
  (forall k, k ∈ allKeys st'
             <-> k <> "id" /\ k <> "status"
                 /\ exists r, r ∈ data st' /\ k ∈ keys r).
Proof.
  intros Hst.
  apply ingestRecords_shape in Hst as (processed & Hmap & -> & _ & -> & _).
  split.
  - apply NoDup_ListNoDup, List.NoDup_filter, NoDup_ListNoDup.
    rewrite sort_perm. apply Set_from_NoDup, NoDup_nil_2.
  - intros k. rewrite list_elem_of_In, filter_In, <- list_elem_of_In, sort_perm.
    rewrite observed_keys_elem, andb_true_iff, !negb_true_iff.
    rewrite !String.eqb_neq. tauto.
Qed.



(** X10. Whatever [localeCompare] answers, consistent or not, an ingestion
    lists every key of every record but [id] and [status], each once: no
    column is lost or repeated. *)
Theorem ingested_keys_complete (Date_now : nat -> Z)
    (localeCompare : string -> string -> Z) (input : json)
    (st st' : AppState) :
  located input <> None ->
  processIngestedData Date_now localeCompare input st = Some st' ->
  NoDup (allKeys st') /\
  (forall k, k ∈ allKeys st'
             <-> k <> "id" /\ k <> "status"
                 /\ exists r, r ∈ data st' /\ k ∈ keys r).
Proof.
  intros Hloc Hst. rewrite processIngestedData_located in Hst.
  destruct (located input) as [d|]; [|done]. by eapply ingested_keys.
Qed.

Lemma ingested_keys_complete_witness :
  NoDup (allKeys sample_ingested) /\
  (forall k, k ∈ allKeys sample_ingested
             <-> k <> "id" /\ k <> "status"
                 /\ exists r, r ∈ data sample_ingested /\ k ∈ keys r).
Proof.
  apply (ingested_keys_complete steady_clock (fun _ _ => 1) sample_input
           initialState sample_ingested).
  - discriminate.
  - reflexivity.
Defined.

(** ** Ingestion: the item that cannot be mapped *)

Lemma normalize_None (Date_now : nat -> Z) idx item :
  normalize Date_now idx item = None <-> item = JNull.
Proof.
  unfold normalize. split.
  - destruct item; try done; intros H;
      match type of H with
      | context [flattenObject ?v ""] =>
          destruct (flattenObject_total v "") as (f & Hf); [done|];
          by rewrite Hf in H
      end.
  - by intros ->.
Qed.

Lemma map_items_None (Date_now : nat -> Z) items idx :
  map_items Date_now items idx = None <-> JNull ∈ items.
Proof.
  revert idx. induction items as [|item items IH]; intros idx; simpl.
  - split; [done|]. intros H. by apply elem_of_nil in H.
  - rewrite elem_of_cons.
    destruct (normalize Date_now idx item) as [r|] eqn:Hr.
    + assert (JNull <> item) as Hne.
      { intros <-. by rewrite (proj2 (normalize_None Date_now idx JNull)) in Hr. }
      destruct (map_items Date_now items (S idx)) as [rs|] eqn:Hrs.
      * split; [done|]. intros [?|Hin]; [done|].
        apply (IH (S idx)) in Hin. congruence.
      * split; [|done]. intros _. right. by apply (IH (S idx)).
    + apply normalize_None in Hr as ->. split; [by left|done].
Qed.

Lemma processIngestedData_None (Date_now : nat -> Z)
    (localeCompare : string -> string -> Z) (input : json) (st : AppState) :
  processIngestedData Date_now localeCompare input st = None
  <-> exists d, located input = Some d /\ JNull ∈ d.
Proof.
  rewrite processIngestedData_located. unfold ingestRecords.
  destruct (located input) as [d|].
  - destruct (map_items Date_now d 0) as [processed|] eqn:Hmap.
    + split; [done|]. intros (d' & [= <-] & Hin).
      apply (proj2 (map_items_None Date_now d 0)) in Hin. congruence.
    + split; [|done]. intros _. exists d. split; [done|].
      by apply (map_items_None Date_now d 0).
  - split; [done|]. by intros (d & ? & _).
Qed.

(** X11. One [null] among the items aborts the whole ingestion, and
    nothing else does: [processIngestedData] throws exactly when the
    located array holds a [null]. *)
Theorem processIngestedData_throws_iff (Date_now : nat -> Z)
    (localeCompare : string -> string -> Z) (input : json) (st : AppState) :
  processIngestedData Date_now localeCompare input st = None
  <-> exists d, located input = Some d /\ JNull ∈ d.
Proof. apply processIngestedData_None. Qed.

(** X12. What pasting leaves behind when the text parses but cannot be
    ingested: when no array is found the text box is emptied along with
    the message being set; when an item is [null] the text is kept, the
    working set is untouched, and the message is the one for text that is
    not JSON. *)
Theorem handlePasteIngest_rejected (Date_now : nat -> Z)
    (localeCompare : string -> string -> Z)
    (JSON_parse : string -> option json) (st : AppState) (input : json) :
  JSON_parse (rawInput st) = Some input ->
  (located input = None ->
   handlePasteIngest Date_now localeCompare JSON_parse st
   = setRawInput (setError st (Some msg_no_array)) "") /\
  (forall d, located input = Some d -> JNull ∈ d ->
   handlePasteIngest Date_now localeCompare JSON_parse st
   = setError st (Some msg_invalid_text)).
Proof.
  intros Hp. unfold handlePasteIngest. rewrite Hp. split.
  - intros Hloc. by rewrite processIngestedData_located, Hloc.
  - intros d Hloc Hin.
    replace (processIngestedData Date_now localeCompare input st) with
      (@None AppState); [done|].
    symmetry. apply processIngestedData_None. by exists d.
Qed.

Lemma handlePasteIngest_rejected_witness :
  (located (JArr [JObj []; JNull]) = None ->
   handlePasteIngest steady_clock code_unit_compare
     (fun _ => Some (JArr [JObj []; JNull])) one_record_state
   = setRawInput (setError one_record_state (Some msg_no_array)) "") /\
  (forall d, located (JArr [JObj []; JNull]) = Some d -> JNull ∈ d ->
   handlePasteIngest steady_clock code_unit_compare
     (fun _ => Some (JArr [JObj []; JNull])) one_record_state
   = setError one_record_state (Some msg_invalid_text)).
Proof.
  apply (handlePasteIngest_rejected steady_clock code_unit_compare
           (fun _ => Some (JArr [JObj []; JNull])) one_record_state
           (JArr [JObj []; JNull])).
  reflexivity.
Defined.

(** ** Transformations: what a merge can and cannot change *)

(** X13. Applying one answer of the service twice is applying it once: the
    merge is idempotent. *)
Theorem mergeTransformed_idempotent (out prev : list (props json)) :
  mergeTransformed out (mergeTransformed out prev) = mergeTransformed out prev.
Proof.
  rewrite !mergeTransformed_last, map_map. apply map_ext. intros d.
  destruct (last_with_id out (record_id d)) as [r|] eqn:E; simpl.
  - destruct (last_with_id_found out _ r E) as [_ Hid].
    by rewrite Hid, E.
  - by rewrite E.
Qed.

Lemma NoDup_map_inj {A B} (f : A -> B) (l : list A) x y :
  NoDup (map f l) -> x ∈ l -> y ∈ l -> f x = f y -> x = y.
Proof.
  induction l as [|z l IH]; simpl; intros Hnd Hx Hy Hf.
  - by apply elem_of_nil in Hx.
  - apply NoDup_cons in Hnd as [Hz Hnd].
    apply elem_of_cons in Hx as [->|Hx], Hy as [->|Hy]; try done.
    + destruct Hz. rewrite Hf. by apply (list_elem_of_fmap_2 f).
    + destruct Hz. rewrite <- Hf. by apply (list_elem_of_fmap_2 f).
    + by apply IH.
Qed.

Lemma mergeTransformed_subset (out prev : list (props json)) :
  NoDup (map record_id prev) ->
  (forall r, r ∈ out -> r ∈ prev) ->
  mergeTransformed out prev = prev.
Proof.
  intros Hnd Hsub. rewrite mergeTransformed_last.
  rewrite <- (map_id prev) at 2. apply map_ext_in. intros d Hd.
  destruct (last_with_id out (record_id d)) as [r|] eqn:E; simpl; [|done].
  destruct (last_with_id_found out _ r E) as [Hr Hid].
  apply (NoDup_map_inj record_id prev); auto.
  by apply list_elem_of_In.
Qed.

(** X14. With a selection and pairwise distinct ids, a service that sends
    back records of the working set as they are changes nothing: the merge
    puts every record back in its own place. *)
Theorem handleTransform_unchanged_records
    (post_transform : list (props json) -> string -> Response)
    (type : string) (st : AppState) (out : list (props json)) :
  selectedIds st <> [] ->
  NoDup (map record_id (data st)) ->
  post_transform (itemsToTransform st) type = DataArray out ->
  (forall r, r ∈ out -> r ∈ data st) ->
  data (handleTransform post_transform type st) = data st.
Proof.
  intros Hsel Hnd Hpost Hsub. unfold handleTransform.
  destruct (selectedIds st) as [|s sel] eqn:Es; [done|]. simpl.
  rewrite Hpost. simpl. by apply mergeTransformed_subset.
Qed.

Lemma handleTransform_unchanged_records_witness :
  data (handleTransform echo_service "normalize_sql" three_record_state)
  = data three_record_state.
Proof.
  apply (handleTransform_unchanged_records echo_service "normalize_sql"
           three_record_state [[("id", JStr "id2")]]).
  - discriminate.
  - change (NoDup [Some (JStr "id1"); Some (JStr "id2"); Some (JStr "id3")]).
    repeat (apply NoDup_cons_2;
            [rewrite ?not_elem_of_cons; repeat split;
             try discriminate; apply not_elem_of_nil|]).
    apply NoDup_nil_2.
  - reflexivity.
  - intros r Hr. apply list_elem_of_singleton in Hr as ->.
    apply list_elem_of_further, list_elem_of_here.
Defined.

(** With an id that occurs twice, the same service does change the working
    set: both records become the one returned last. *)
Example handleTransform_duplicate_ids_example :
  data (handleTransform echo_service "normalize_sql"
          (mkAppState
             [[("id", JNum 1); ("x", JStr "a")];
              [("id", JNum 1); ("x", JStr "b")]]
             [] [] [Some (JNum 1)] false None "" ViewList))
  = [[("id", JNum 1); ("x", JStr "b")]; [("id", JNum 1); ("x", JStr "b")]].
Proof. reflexivity. Qed.


Lemma filter_all_false {A} (f : A -> bool) (l : list A) :
  Forall (fun x => f x = false) l -> List.filter f l = [].
Proof.
  induction 1 as [|x l Hx Hl IH]; simpl; [done|]. by rewrite Hx.
Qed.

(** X16. A stale selection, one that names no record of the working set
    (whose ids are strings, numbers or the like), is not taken for an
    empty one: the batch for a transformation is empty, and an export
    yields nothing instead of the whole working set. *)
Theorem stale_selection_selects_nothing (st : AppState) :
  Forall (fun d => primitive_id (record_id d)) (data st) ->
  selectedIds st <> [] ->
  Forall (fun d => Set_has (selectedIds st) (record_id d) = false) (data st) ->
  itemsToTransform st = [] /\ handleExport st = None.
Proof.
  intros _ Hsel Hstale. unfold handleExport, itemsToExport, itemsToTransform.
  assert ((0 <? length (selectedIds st))%nat = true) as ->
    by (by destruct (selectedIds st)).
  by rewrite (filter_all_false _ _ Hstale).
Qed.

Lemma stale_selection_selects_nothing_witness :
  itemsToTransform stale_selection_state = []
  /\ handleExport stale_selection_state = None.
Proof.
  apply (stale_selection_selects_nothing stale_selection_state).
  - repeat constructor.
  - discriminate.
  - repeat constructor.
Defined.

Lemma filter_sublist {A} (f : A -> bool) (l : list A) :
  sublist (List.filter f l) l.
Proof.
  induction l as [|x l IH]; simpl; [constructor|].
  destruct (f x); by constructor.
Qed.

(** X17. An export (of records whose ids are strings, numbers or the like)
    is never empty and holds records of the working set as they are, in
    the order of the working set: all of them without a selection, and
    with one exactly those whose id is selected. *)
Theorem handleExport_records (st : AppState) (items : list (props json)) :
  Forall (fun d => primitive_id (record_id d)) (data st) ->
  handleExport st = Some items ->
  items <> [] /\
  sublist items (data st) /\
  (forall d, d ∈ items
             <-> d ∈ data st
                 /\ (selectedIds st = []
                     \/ Set_has (selectedIds st) (record_id d) = true)).
Proof.
  intros _. unfold handleExport, itemsToExport.
  destruct (decide (selectedIds st = [])) as [Es|Es].
  - rewrite Es. simpl.
    destruct (data st) as [|d ds]; [done|]. simpl. intros [= <-].
    split; [done|]. split; [done|]. intros d'. split; [by auto|by intros [? _]].
  - assert ((0 <? length (selectedIds st))%nat = true) as ->
      by (by destruct (selectedIds st)).
    destruct (List.filter _ (data st)) as [|d ds] eqn:Ef; [done|].
    simpl. intros [= <-]. rewrite <- Ef. split; [by rewrite Ef|].
    split; [apply filter_sublist|].
    intros d'. rewrite list_elem_of_In, filter_In, <- list_elem_of_In.
    split; [by intros [? ?]; auto|].
    by intros [? [Hnil|?]].
Qed.

Lemma handleExport_records_witness :
  [[("id", JStr "id2")]] <> [] /\
  sublist [[("id", JStr "id2")]] (data three_record_state) /\
  (forall d, d ∈ [[("id", JStr "id2")]]
             <-> d ∈ data three_record_state
                 /\ (selectedIds three_record_state = []
                     \/ Set_has (selectedIds three_record_state)
                          (record_id d) = true)).
Proof.
  apply (handleExport_records three_record_state);
    [repeat constructor|reflexivity].
Defined.

(** ** The selection *)

Lemma Set_has_true s id :
  Set_has s id = true -> id ∈ s /\ primitive_id id.
Proof.
  unfold Set_has, primitive_id. intros H.
  apply existsb_exists in H as (y & Hy & Hid).
  pose proof (sameValueZero_eq _ _ Hid) as <-.
  split; [by apply list_elem_of_In|exact Hid].
Qed.

Lemma sameValueZero_flip a b : sameValueZero a b = sameValueZero b a.
Proof.
  destruct (sameValueZero a b) eqn:E1, (sameValueZero b a) eqn:E2; try done.
  - pose proof (sameValueZero_eq _ _ E1) as <-. congruence.
  - pose proof (sameValueZero_eq _ _ E2) as <-. congruence.
Qed.

Lemma Set_has_add s id x :
  Set_has (IdSet_add s id) x = Set_has s x || sameValueZero x id.
Proof.
  unfold IdSet_add. destruct (Set_has s id) eqn:E.
  - destruct (sameValueZero x id) eqn:Ex; [|by rewrite orb_false_r].
    pose proof (sameValueZero_eq _ _ Ex) as ->. by rewrite E.
  - unfold Set_has. rewrite existsb_app. simpl. by rewrite orb_false_r.
Qed.

Lemma Set_has_delete s id x :
  Set_has (IdSet_delete s id) x = Set_has s x && negb (sameValueZero id x).
Proof.
  unfold Set_has, IdSet_delete. induction s as [|y s IH]; simpl; [done|].
  destruct (sameValueZero id y) eqn:Ey; simpl.
  - rewrite IH. pose proof (sameValueZero_eq _ _ Ey) as <-.
    rewrite (sameValueZero_flip x id).
    by destruct (sameValueZero id x), (existsb (sameValueZero x) s).
  - rewrite IH. destruct (sameValueZero x y) eqn:Exy; simpl; [|done].
    pose proof (sameValueZero_eq _ _ Exy) as ->. by rewrite Ey.
Qed.

(** X18. Toggling an id (a string, a number or the like) changes the
    selection of no other id, flips the selection of the id itself, and
    toggling twice leaves every id selected or not as it was. *)
Theorem onToggleSelect_flips (id : option json) (st : AppState) :
  primitive_id id ->
  let toggled := selectedIds (onToggleSelect id st) in
  (forall x, sameValueZero x id = false ->
             Set_has toggled x = Set_has (selectedIds st) x) /\
  Set_has toggled id = negb (Set_has (selectedIds st) id) /\
  (forall x, Set_has (selectedIds (onToggleSelect id (onToggleSelect id st))) x
             = Set_has (selectedIds st) x).
Proof.
  intros Hid. unfold onToggleSelect, primitive_id in *. simpl.
  set (s := selectedIds st).
  assert (forall x,
            Set_has (if Set_has s id then IdSet_delete s id
                     else IdSet_add s id) x
            = if sameValueZero x id then negb (Set_has s id) && sameValueZero id id
              else Set_has s x) as Hone.
  { intros x. destruct (Set_has s id) eqn:E.
    - rewrite Set_has_delete, (sameValueZero_flip id x).
      destruct (sameValueZero x id) eqn:Ex; simpl.
      + by rewrite andb_false_r.
      + by rewrite andb_true_r.
    - rewrite Set_has_add.
      destruct (sameValueZero x id) eqn:Ex; simpl.
      + pose proof (sameValueZero_eq _ _ Ex) as ->.
        by rewrite orb_true_r, Ex.
      + by rewrite orb_false_r. }
  split; [|split].
  - intros x Hx. by rewrite Hone, Hx.
  - rewrite Hone, Hid. by rewrite andb_true_r.
  - intros x.
    set (s1 := if Set_has s id then IdSet_delete s id else IdSet_add s id).
    assert (forall x, Set_has s1 x
                      = if sameValueZero x id
                        then negb (Set_has s id) && sameValueZero id id
                        else Set_has s x) as H1 by exact Hone.
    destruct (Set_has s1 id) eqn:E1.
    + rewrite Set_has_delete, (sameValueZero_flip id x), H1.
      destruct (sameValueZero x id) eqn:Ex; simpl; [|by rewrite andb_true_r].
      rewrite andb_false_r. pose proof (sameValueZero_eq _ _ Ex) as ->.
      rewrite H1, Ex in E1. apply andb_true_iff in E1 as [E1 _].
      by destruct (Set_has s id).
    + rewrite Set_has_add, H1.
      destruct (sameValueZero x id) eqn:Ex; simpl; [|by rewrite orb_false_r].
      pose proof (sameValueZero_eq _ _ Ex) as ->.
      rewrite H1, Ex in E1. rewrite orb_true_r.
      destruct (Set_has s id) eqn:E; [done|]. simpl in E1. congruence.
Qed.

Lemma Set_has_add_all (shown : list (props json)) s x :
  Set_has (fold_left (fun newIds d => IdSet_add newIds (record_id d)) shown s) x
  = Set_has s x || existsb (fun d => sameValueZero x (record_id d)) shown.
Proof.
  revert s. induction shown as [|d shown IH]; intros s; simpl.
  - by rewrite orb_false_r.
  - by rewrite IH, Set_has_add, orb_assoc.
Qed.

Lemma Set_has_delete_all (shown : list (props json)) s x :
  Set_has (fold_left (fun newIds d => IdSet_delete newIds (record_id d)) shown s) x
  = Set_has s x && negb (existsb (fun d => sameValueZero (record_id d) x) shown).
Proof.
  revert s. induction shown as [|d shown IH]; intros s; simpl.
  - by rewrite andb_true_r.
  - by rewrite IH, Set_has_delete, negb_orb, andb_assoc.
Qed.

Lemma onToggleSelect_flips_witness :
  let toggled :=
    selectedIds (onToggleSelect (Some (JStr "id2")) three_record_state) in
  (forall x, sameValueZero x (Some (JStr "id2")) = false ->
             Set_has toggled x = Set_has (selectedIds three_record_state) x) /\
  Set_has toggled (Some (JStr "id2"))
  = negb (Set_has (selectedIds three_record_state) (Some (JStr "id2"))) /\
  (forall x,
     Set_has (selectedIds (onToggleSelect (Some (JStr "id2"))
                             (onToggleSelect (Some (JStr "id2"))
                                three_record_state))) x
     = Set_has (selectedIds three_record_state) x).
Proof.
  apply (onToggleSelect_flips (Some (JStr "id2")) three_record_state).
  reflexivity.
Defined.

(** X19. Selecting all (over records whose ids are strings, numbers or the
    like) selects every record shown, so that the header box reads
    checked, and changes the selection of no id that is not shown. *)
Theorem onSelectAll_selects (shown : list (props json)) (st : AppState) :
  shown <> [] ->
  Forall (fun d => primitive_id (record_id d)) shown ->
  let selected := selectedIds (onSelectAll shown true st) in
  allSelected shown selected = true /\
  (forall x, Forall (fun d => sameValueZero x (record_id d) = false) shown ->
             Set_has selected x = Set_has (selectedIds st) x).
Proof.
  intros Hne Hprim. unfold onSelectAll, allSelected. simpl. split.
  - apply andb_true_iff. split; [by destruct shown|].
    apply forallb_forall. intros d Hd. rewrite Set_has_add_all.
    apply orb_true_iff. right. apply existsb_exists. exists d.
    split; [done|]. rewrite Forall_forall in Hprim.
    apply Hprim. by apply list_elem_of_In.
  - intros x Hx. rewrite Set_has_add_all.
    replace (existsb _ shown) with false; [by rewrite orb_false_r|].
    symmetry. apply not_true_is_false. intros H.
    apply existsb_exists in H as (d & Hd & Hxd).
    rewrite Forall_forall in Hx. rewrite Hx in Hxd; [done|].
    by apply list_elem_of_In.
Qed.

Lemma onSelectAll_selects_witness :
  let selected :=
    selectedIds (onSelectAll (data three_record_state) true three_record_state) in
  allSelected (data three_record_state) selected = true /\
  (forall x,
     Forall (fun d => sameValueZero x (record_id d) = false)
       (data three_record_state) ->
     Set_has selected x = Set_has (selectedIds three_record_state) x).
Proof.
  apply (onSelectAll_selects (data three_record_state) three_record_state).
  - discriminate.
  - repeat constructor.
Defined.

(** X20. Deselecting all (over records whose ids are strings, numbers or
    the like) leaves no record shown selected, so that the header box
    reads unchecked, and changes the selection of no id that is not
    shown. *)
Theorem onSelectAll_deselects (shown : list (props json)) (st : AppState) :
  Forall (fun d => primitive_id (record_id d)) shown ->
  let selected := selectedIds (onSelectAll shown false st) in
  Forall (fun d => Set_has selected (record_id d) = false) shown /\
  (shown <> [] -> allSelected shown selected = false) /\
  (forall x, Forall (fun d => sameValueZero (record_id d) x = false) shown ->
             Set_has selected x = Set_has (selectedIds st) x).
Proof.
  intros _. unfold onSelectAll. simpl.
  assert (Forall
            (fun d =>
               Set_has
                 (fold_left
                    (fun newIds d0 => IdSet_delete newIds (record_id d0))
                    shown (selectedIds st)) (record_id d) = false) shown)
    as Hnone.
  { apply Forall_forall. intros d Hd. rewrite Set_has_delete_all.
    destruct (Set_has (selectedIds st) (record_id d)) eqn:E; [|done]. simpl.
    apply Set_has_true in E as [_ Hprim]. apply negb_false_iff.
    apply existsb_exists. exists d. split; [by apply list_elem_of_In|done]. }
  split; [exact Hnone|]. split.
  - intros Hne. unfold allSelected. destruct shown as [|d shown]; [done|].
    apply Forall_cons in Hnone as [Hd _]. cbn [forallb]. rewrite Hd.
    reflexivity.
  - intros x Hx. rewrite Set_has_delete_all.
    replace (existsb _ shown) with false; [by rewrite andb_true_r|].
    symmetry. apply not_true_is_false. intros H.
    apply existsb_exists in H as (d & Hd & Hxd).
    rewrite Forall_forall in Hx. rewrite Hx in Hxd; [done|].
    by apply list_elem_of_In.
Qed.

(** ** The columns *)

Lemma Set_from_rebuild (l s : list string) :
  NoDup (s ++ l) -> fold_left Set_add l s = s ++ l.
Proof.
  revert s. induction l as [|x l IH]; intros s Hnd; simpl.
  - by rewrite app_nil_r.
  - assert (Set_add s x = s ++ [x]) as ->.
    { unfold Set_add. destruct (existsb (String.eqb x) s) eqn:E; [|done].
      apply existsb_exists in E as (y & Hy & Hxy).
      apply String.eqb_eq in Hxy as <-.
      apply NoDup_app in Hnd as (_ & Hdis & _).
      destruct (Hdis x); [by apply list_elem_of_In|apply list_elem_of_here]. }
    rewrite IH; rewrite <- app_assoc; done.
Qed.

Lemma defaultColumns_NoDup (ks : list string) :
  NoDup ks -> ks <> [] ->
  defaultColumns ks []
  = if (length ks <=? 6)%nat then ks else firstn 5 ks.
Proof.
  intros Hnd Hne. unfold defaultColumns.
  destruct ks as [|k ks]; [done|].
  change ((0 <? length (k :: ks))%nat && (length (@nil string) =? 0)%nat)
    with true. cbv iota.
  destruct (length (k :: ks) <=? 6)%nat.
  - by apply (Set_from_rebuild (k :: ks) []).
  - apply (Set_from_rebuild (firstn 5 (k :: ks)) []). simpl app.
    rewrite <- (firstn_skipn 5 (k :: ks)) in Hnd.
    by apply NoDup_app in Hnd as (? & _ & _).
Qed.

(** X21. After an ingestion into a table that shows no column, the columns
    shown are the first keys of [allKeys] in its order: all of them when
    there are at most six, the first five otherwise; so never more than
    six.  A table that shows a column already keeps its columns, also
    those of keys the new working set no longer has. *)
Theorem defaultColumns_after_ingestion (Date_now : nat -> Z)
    (localeCompare : string -> string -> Z) (input : json)
    (st st' : AppState) :
  located input <> None ->
  processIngestedData Date_now localeCompare input st = Some st' ->
  (allKeys st' <> [] ->
   defaultColumns (allKeys st') []
   = if (length (allKeys st') <=? 6)%nat then allKeys st'
     else firstn 5 (allKeys st')) /\
  (length (defaultColumns (allKeys st') []) <= 6)%nat /\
  (forall visible, visible <> [] ->
                   defaultColumns (allKeys st') visible = visible).
Proof.
  intros Hloc Hst. rewrite processIngestedData_located in Hst.
  destruct (located input) as [d|]; [clear Hloc|done].
  pose proof (ingested_keys _ _ _ _ _ Hst) as [Hnd _].
  split; [by apply defaultColumns_NoDup|]. split.
  - destruct (allKeys st') as [|k ks] eqn:E; [simpl; lia|].
    rewrite defaultColumns_NoDup by done.
    destruct (Nat.leb_spec (length (k :: ks)) 6); [done|].
    rewrite length_take. lia.
  - intros visible Hv. unfold defaultColumns.
    destruct visible; [done|]. simpl. by rewrite andb_false_r.
Qed.

Lemma defaultColumns_after_ingestion_witness :
  (allKeys sample_ingested <> [] ->
   defaultColumns (allKeys sample_ingested) []
   = if (length (allKeys sample_ingested) <=? 6)%nat
     then allKeys sample_ingested
     else firstn 5 (allKeys sample_ingested)) /\
  (length (defaultColumns (allKeys sample_ingested) []) <= 6)%nat /\
  (forall visible, visible <> [] ->
                   defaultColumns (allKeys sample_ingested) visible = visible).
Proof.
  apply (defaultColumns_after_ingestion steady_clock code_unit_compare
           sample_input initialState sample_ingested).
  - discriminate.
  - reflexivity.
Defined.

(** Seven keys show fewer columns than six. *)
Example defaultColumns_seven_example :
  length (defaultColumns ["a"; "b"; "c"; "d"; "e"; "f"] []) = 6%nat /\
  length (defaultColumns ["a"; "b"; "c"; "d"; "e"; "f"; "g"] []) = 5%nat.
Proof. split; reflexivity. Qed.

Lemma existsb_eqb_elem (key : string) (l : list string) :
  existsb (String.eqb key) l = true <-> key ∈ l.
Proof.
  rewrite existsb_exists. split.
  - intros (y & Hy & Heq). apply String.eqb_eq in Heq as ->.
    by apply list_elem_of_In.
  - intros H. exists key. split; [by apply list_elem_of_In|].
    apply String.eqb_refl.
Qed.

Lemma elem_of_toggleColumn key visible k :
  k ∈ toggleColumn key visible
  <-> (k <> key /\ k ∈ visible) \/ (k = key /\ key ∉ visible).
Proof.
  unfold toggleColumn. destruct (existsb (String.eqb key) visible) eqn:E.
  - apply existsb_eqb_elem in E.
    rewrite list_elem_of_In, filter_In, <- list_elem_of_In, negb_true_iff,
      String.eqb_neq.
    split.
    + intros [? ?]. left. split; [congruence|done].
    + intros [[? ?]|[_ ?]]; [|done]. split; [done|congruence].
  - assert (key ∉ visible) as Hnot.
    { intros H. apply existsb_eqb_elem in H. congruence. }
    rewrite Set_add_elem. split.
    + intros [?| ->]; [left|right]; [|done]. split; [|done].
      by intros ->.
    + intros [[? ?]|[? ?]]; [by left|by right].
Qed.

(** X22. Toggling a column shows it when it was hidden and hides it when
    it was shown, leaves every other column as it was, and toggling twice
    gives back the same set of columns. *)
Theorem toggleColumn_flips (key : string) (visible : list string) :
  (key ∈ toggleColumn key visible <-> key ∉ visible) /\
  (forall k, k <> key -> (k ∈ toggleColumn key visible <-> k ∈ visible)) /\
  (forall k, k ∈ toggleColumn key (toggleColumn key visible) <-> k ∈ visible).
Proof.
  split; [|split].
  - rewrite elem_of_toggleColumn. tauto.
  - intros k Hk. rewrite elem_of_toggleColumn. tauto.
  - intros k. rewrite !elem_of_toggleColumn.
    destruct (decide (k = key)) as [->|Hne]; [|tauto].
    destruct (decide (key ∈ visible)); tauto.
Qed.

(** ** The search *)

Lemma starts_with_spec (s t : string) :
  starts_with s t = true <-> exists w, s = t +:+ w.
Proof.
  revert s. induction t as [|c t IH]; intros s; simpl.
  - split; [by exists s|done].
  - destruct s as [|d s]; [split; [done|by intros (w & ?)]|].
    rewrite andb_true_iff, IH. split.
    + intros [Hc (w & ->)]. apply Ascii.eqb_eq in Hc as ->. by exists w.
    + intros (w & Hw). rewrite append_cons in Hw. injection Hw as -> ->.
      split; [apply Ascii.eqb_refl|by exists w].
Qed.

Lemma includes_spec (s t : string) :
  includes s t = true <-> exists u w, s = u +:+ t +:+ w.
Proof.
  induction s as [|c s IH]; simpl.
  - rewrite orb_false_r, starts_with_spec. split.
    + intros (w & Hw). by exists "", w.
    + intros (u & w & Hw). destruct u as [|x u]; [by exists w|].
      by rewrite append_cons in Hw.
  - rewrite orb_true_iff, starts_with_spec, IH. split.
    + intros [(w & Hw)|(u & w & ->)]; [by exists "", w|].
      by exists (String c u), w.
    + intros (u & w & Hw). destruct u as [|x u].
      * left. by exists w.
      * right. rewrite append_cons in Hw. injection Hw as -> ->.
        by exists u, w.
Qed.

Lemma includes_trans (s t r : string) :
  includes s t = true -> includes t r = true -> includes s r = true.
Proof.
  rewrite !includes_spec. intros (u & w & ->) (u' & w' & ->).
  exists (u +:+ u'), (w' +:+ w). by rewrite !append_assoc.
Qed.

Lemma filter_sublist_impl {A} (f g : A -> bool) (l : list A) :
  (forall x, f x = true -> g x = true) ->
  sublist (List.filter f l) (List.filter g l).
Proof.
  intros Himpl. induction l as [|x l IH]; simpl; [constructor|].
  destruct (f x) eqn:Ef.
  - rewrite (Himpl x Ef). by constructor.
  - destruct (g x); [by constructor|done].
Qed.



(** The search reads an array as its elements joined by commas. *)
Example filterData_array_example :
  filterData decimal lower_letters "x,,sel" search_records
  = [[("id", JNum 2); ("tags", JArr [JStr "x"; JNull; JStr "sel"])]].
Proof. reflexivity. Qed.

(** ** Reloading *)

(** X24. A reload never touches the key metadata or the selection; it
    replaces the working set only by an array the back end answers with,
    taken as it is; and it ends with an error message exactly when the
    request failed. *)
Theorem fetchData_frame (api_get : string -> Response)
    (limit status : option string) (st : AppState) :
  let st' := fetchData api_get limit status st in
  allKeys st' = allKeys st /\
  keyDensity st' = keyDensity st /\
  selectedIds st' = selectedIds st /\
  (data st' = data st \/ exists url, api_get url = DataArray (data st')) /\
  (error st' = None \/
   error st' = Some msg_fetch_failed /\ data st' = data st
   /\ exists url, api_get url = RequestFailed).
Proof.
  unfold fetchData.
  match goal with |- context [api_get ?u] => destruct (api_get u) eqn:E end;
    simpl; repeat split; eauto 10.
Qed.

Lemma onSelectAll_deselects_witness :
  let selected :=
    selectedIds (onSelectAll (data three_record_state) false three_record_state) in
  Forall (fun d => Set_has selected (record_id d) = false)
    (data three_record_state) /\
  (data three_record_state <> [] ->
   allSelected (data three_record_state) selected = false) /\
  (forall x,
     Forall (fun d => sameValueZero (record_id d) x = false)
       (data three_record_state) ->
     Set_has selected x = Set_has (selectedIds three_record_state) x).
Proof.
  apply (onSelectAll_deselects (data three_record_state) three_record_state).
  repeat constructor.
Defined.
